(** * node-pn532: a shallow embedding of [src/pn532.js]

    The driver class [PN532] of the repository, embedded function by
    function: the request/response correlation of [sendCommand] over the
    frame emitter, the tag operations built on it ([scanTag], [readBlock],
    [writeBlock], [readNdefData], [writeNdefData], [emulateSetData]) and
    the ['tag'] polling that the constructor wires to ['newListener'].

    JavaScript promises are modelled by a state-and-outcome monad over a
    [World] that holds what the device will emit, what was handed to
    [sendCommand], and the log.  [logger.debug] lines are left out; the
    [info], [warn] and [error] lines are kept. *)

From Stdlib Require Import ZArith Lia List.
From Stdlib Require Import Strings.Byte.
From stdpp Require Import base option list strings gmap.

Local Open Scope Z_scope.

(** ** JavaScript values used by the driver *)

(** A Node [Buffer]: a sequence of bytes. *)
Definition Buffer := list byte.

(** A JavaScript array of numbers; [None] is an empty slot (a hole), which
    is what [pageData.length = PAGE_SIZE] creates. *)
Definition JsArray := list (option Z).

(** A JavaScript number that may be [NaN] ([None]). *)
Definition JsNum := option Z.

Definition byteZ (b : byte) : Z := Z.of_N (Byte.to_N b).

(** [buf[i]]: the byte, or [undefined] ([None]) outside the buffer. *)
Definition index (buf : Buffer) (i : Z) : option byte :=
  if i <? 0 then None else buf !! Z.to_nat i.

(** [buf[i]] when [i] may be [NaN]: [undefined]. *)
Definition indexNum (buf : Buffer) (i : JsNum) : option byte :=
  match i with
  | Some i => index buf i
  | None => None
  end.

(** Number of an array element read: [undefined] turns arithmetic to [NaN]. *)
Definition toNum (v : option byte) : JsNum := byteZ <$> v.

(** [a + b] on numbers, [NaN] absorbing. *)
Definition jsAdd (a b : JsNum) : JsNum :=
  match a, b with
  | Some x, Some y => Some (x + y)
  | _, _ => None
  end.

(** [a >= n] and [n <= a]: every comparison with [NaN] is false. *)
Definition jsGe (a : JsNum) (n : Z) : bool :=
  match a with
  | Some x => n <=? x
  | None => false
  end.

Definition jsLe (n : Z) (a : JsNum) : bool :=
  match a with
  | Some x => n <=? x
  | None => false
  end.

(** [v === n] for an array element read. *)
Definition strictEq (v : option byte) (n : Z) : bool :=
  match v with
  | Some b => byteZ b =? n
  | None => false
  end.

(** [a || d] on an optional numeric option: [undefined] and [0] are falsy. *)
Definition jsOr (a : option Z) (d : Z) : Z :=
  match a with
  | Some 0 => d
  | Some n => n
  | None => d
  end.

(** Integer conversion of a slice bound: [NaN] becomes [0]. *)
Definition toInteger (n : JsNum) : Z := default 0 n.

(** A slice bound against the length: negative bounds count from the end,
    and everything is clamped into [0 .. len]. *)
Definition clampIndex (len i : Z) : Z :=
  if i <? 0 then Z.max (len + i) 0 else Z.min i len.

(** [buf.slice(start, end)]. *)
Definition slice (buf : Buffer) (start end_ : Z) : Buffer :=
  let len := Z.of_nat (length buf) in
  let s := clampIndex len start in
  let e := clampIndex len end_ in
  take (Z.to_nat (e - s)) (drop (Z.to_nat s) buf).

(** [Math.ceil(a / b)] for a positive divisor. *)
Definition Math_ceil_div (a b : Z) : Z := - ((- a) / b).

(** [array.splice(0, n)]: the removed head, and what is left in the array. *)
Definition splice0 (n : nat) (array : JsArray) : JsArray * JsArray :=
  (take n array, drop n array).

(** [array.length = n] on an array shorter than [n]: grows it with holes. *)
Definition setLength (n : nat) (array : JsArray) : JsArray :=
  array ++ replicate (n - length array)%nat None.

(** Modelled from the spec: [frame.js] ([DataFrame.toBuffer]) is not under
    src/; the payload handed to [sendCommand] is stored byte by byte, and an
    empty slot of the array is stored as the byte [0x00] (the source's
    comment at the padding: NULL TLV (0x00) are written at the end of the
    page). *)
Definition slotValue (v : option Z) : Z := default 0 v.

(** ** Constants *)

(** [constants.js] is not under src/: the opcodes are taken as a parameter. *)
Record Constants := {
  COMMAND_IN_LIST_PASSIVE_TARGET : Z;
  COMMAND_IN_DATA_EXCHANGE : Z;
  CARD_ISO14443A : Z;
  MIFARE_COMMAND_READ : Z;
  MIFARE_COMMAND_WRITE_4 : Z
}.

(** Modelled from the spec: the two TLV tags of [constants.js], which is not
    under src/; the NDEF type is [0x03] (also in the source's comment and
    error message) and the terminator is [0xFE]. *)
Definition TAG_MEM_NDEF_TLV : Z := 0x03.
Definition TAG_MEM_TERMINATOR_TLV : Z := 0xFE.

(** ** Frames, events, errors, log *)

Inductive Direction := HostToDevice | DeviceToHost.

(** Modelled from the spec: [frame.js] is not under src/; a frame is an
    acknowledgement, a negative acknowledgement, or a data frame with a
    direction and the body that [getDataBody()] returns. *)
Inductive Frame :=
  | AckFrame
  | NackFrame
  | DataFrame (direction : Direction) (body : Buffer).

Definition getDataBody (frame : Frame) : Buffer :=
  match frame with
  | DataFrame _ body => body
  | _ => []
  end.

Inductive Error :=
  | EmitterError (code : Z)          (* a value emitted with 'error' *)
  | ThrownError (message : string)   (* throw new Error(message) *)
  | TypeError (message : string).    (* raised by the runtime *)

(** What the frame emitter delivers to its listeners. *)
Inductive Event :=
  | EvFrame (frame : Frame)
  | EvError (error : Error).

Inductive Level := info | warn | error.

Definition LogEntry : Type := Level * string.

(** ** Promises *)

(** The fate of a promise: settled either way, never settled because
    nothing arrives any more, or never reached because the code spins. *)
Inductive Outcome (A : Type) :=
  | Resolved (a : A)
  | Rejected (e : Error)
  | Pending
  | Diverged.

Arguments Resolved {A} a.
Arguments Rejected {A} e.
Arguments Pending {A}.
Arguments Diverged {A}.

Record World := {
  script : list (list Event);  (* per request, the events emitted after the write *)
  sent : list JsArray;         (* the command buffers given to sendCommand *)
  log : list LogEntry
}.

Definition M (A : Type) : Type := World -> Outcome A * World.

Definition ret {A} (a : A) : M A := fun w => (Resolved a, w).

Definition throw {A} (e : Error) : M A := fun w => (Rejected e, w).

Definition spin {A} : M A := fun w => (Diverged, w).

(** A callback that has run to its end: returned a value, or threw. *)
Definition settled {A} (o : Outcome A) : M A := fun w => (o, w).

(** [p.then(cb)] *)
Definition then_ {A B} (p : M A) (cb : A -> M B) : M B :=
  fun w =>
    match p w with
    | (Resolved a, w') => cb a w'
    | (Rejected e, w') => (Rejected e, w')
    | (Pending, w') => (Pending, w')
    | (Diverged, w') => (Diverged, w')
    end.

(** [p.catch(handler)] *)
Definition catch_ {A} (p : M A) (handler : Error -> M A) : M A :=
  fun w =>
    match p w with
    | (Rejected e, w') => handler e w'
    | r => r
    end.

Definition logger (l : Level) (message : string) : M unit :=
  fun w => (Resolved tt,
            {| script := script w; sent := sent w; log := log w ++ [(l, message)] |}).

(** ** sendCommand (lines 56-93) *)

(** What a listener call does to its request. *)
Inductive Reaction :=
  | Stay (entries : list LogEntry)                         (* the listeners stay *)
  | Settle (entries : list LogEntry) (o : Outcome Frame).  (* removeListeners(), then settle *)

Definition onFrame (frame : Frame) : Reaction :=
  match frame with
  | AckFrame => Stay [(info, "Command Acknowledged"%string)]
  | DataFrame _ _ => Settle [(info, "Command Response"%string)] (Resolved frame)
  | NackFrame => Stay []
  end.

Definition onError (e : Error) : Reaction :=
  Settle [(error, "Error received for sendCommand"%string)] (Rejected e).

Definition react (ev : Event) : Reaction :=
  match ev with
  | EvFrame frame => onFrame frame
  | EvError e => onError e
  end.

(** The promise of one request against the events emitted while its two
    listeners are registered. *)
Fixpoint await (events : list Event) : Outcome Frame * list LogEntry :=
  match events with
  | [] => (Pending, [])
  | ev :: rest =>
      match react ev with
      | Stay entries => let (o, more) := await rest in (o, entries ++ more)
      | Settle entries o => (o, entries)
      end
  end.

Definition sendCommand (commandBuffer : JsArray) : M Frame :=
  fun w =>
    match script w with
    | [] =>
        (Pending, {| script := []; sent := sent w ++ [commandBuffer]; log := log w |})
    | events :: rest =>
        let (o, entries) := await events in
        (o, {| script := rest; sent := sent w ++ [commandBuffer]; log := log w ++ entries |})
    end.

Notation "a ;; b" := (then_ a (fun _ => b)) (at level 100, b at level 200, right associativity).

(** ** Hexadecimal rendering of a UID (lines 158-161) *)

Definition hexDigit (d : N) : Ascii.ascii :=
  if (d <? 10)%N then Ascii.ascii_of_N (48 + d) else Ascii.ascii_of_N (87 + d).

(** The two lowercase digits of one byte. *)
Definition hexByte (b : byte) : string :=
  let n := Byte.to_N b in
  String (hexDigit (n / 16)) (String (hexDigit (n mod 16)) EmptyString).

(** [buf.toString('hex')] *)
Fixpoint toString_hex (buf : Buffer) : string :=
  match buf with
  | [] => EmptyString
  | b :: rest => hexByte b +:+ toString_hex rest
  end.

(** The matches of [/.{1,2}/g], left to right: two characters at a time,
    one for an odd last character (the strings here hold no line break). *)
Fixpoint pairs (s : string) : list string :=
  match s with
  | EmptyString => []
  | String a EmptyString => [String a EmptyString]
  | String a (String b rest) => String a (String b EmptyString) :: pairs rest
  end.

(** [s.match(/.{1,2}/g)]: [null] ([None]) when nothing matches. *)
Definition match_1_2 (s : string) : option (list string) :=
  match pairs s with
  | [] => None
  | parts => Some parts
  end.

(** [parts.join(sep)] *)
Definition join (sep : string) (parts : list string) : string :=
  String.concat sep parts.

(** ** Tag operations *)

Record Tag := {
  ATQA : Buffer;
  SAK : option byte;
  uid : string
}.

Record Options := {
  tagNumber : option Z;
  blockAddress : option Z
}.

(** [options || {}] *)
Definition orEmpty (options : option Options) : Options :=
  default {| tagNumber := None; blockAddress := None |} options.

(** The outcome of the TLV search of [readNdefData]. *)
Inductive TlvScan :=
  | Found (ndefLength : option byte) (ndefValueOffset : JsNum)
  | NotFound.  (* the [throw] of line 219 *)

Definition PAGE_SIZE : nat := 4.

(** What [return f(blockNum)] hands on: the promise when [f] returned one,
    and the value at hand when it returned [undefined]. *)
Definition promiseOf {A} (returned : option (M A)) (value : A) : M A :=
  match returned with
  | Some p => p
  | None => ret value
  end.

Section Driver.

Variable c : Constants.

(** *** scanTag (lines 136-170) *)

Definition scanTag_then (frame : Frame) : Outcome (option Tag) :=
  let body := getDataBody frame in
  let numberOfTags := index body 0 in
  if strictEq numberOfTags 1 then
    let uidLength := index body 5 in
    let hex := toString_hex (slice body 6 (toInteger (jsAdd (Some 6) (toNum uidLength)))) in
    match match_1_2 hex with
    | None => Rejected (TypeError "Cannot read property 'join' of null")
    | Some parts =>
        Resolved (Some {| ATQA := slice body 2 4; SAK := index body 4; uid := join ":" parts |})
    end
  else Resolved None.

Definition scanTag_command : JsArray :=
  let maxNumberOfTargets := 0x01 in
  let baudRate := CARD_ISO14443A c in
  [Some (COMMAND_IN_LIST_PASSIVE_TARGET c); Some maxNumberOfTargets; Some baudRate].

Definition scanTag : M (option Tag) :=
  logger info "Scanning tag..." ;;
  then_ (sendCommand scanTag_command) (fun frame => settled (scanTag_then frame)).

(** *** readBlock (lines 172-202) *)

Definition readBlock_then (frame : Frame) : M Buffer :=
  let body := getDataBody frame in
  let status := index body 0 in
  (if strictEq status 0x13
   then logger warn "The data format does not match to the specification."
   else ret tt) ;;
  let block := slice body 1 (Z.of_nat (length body) - 1) in
  ret block.

Definition readBlock (options : option Options) : M Buffer :=
  logger info "Reading block..." ;;
  let options := orEmpty options in
  let tagNumber := jsOr (tagNumber options) 0x01 in
  let blockAddress := jsOr (blockAddress options) 0x01 in
  let commandBuffer :=
    [Some (COMMAND_IN_DATA_EXCHANGE c); Some tagNumber;
     Some (MIFARE_COMMAND_READ c); Some blockAddress] in
  then_ (sendCommand commandBuffer) readBlock_then.

(** *** writeBlock (lines 265-295) *)

Definition writeBlock_then (frame : Frame) : M Buffer :=
  let body := getDataBody frame in
  let status := index body 0 in
  (if strictEq status 0x13
   then logger warn "The data format does not match to the specification."
   else ret tt) ;;
  let block := slice body 1 (Z.of_nat (length body) - 1) in
  ret block.

Definition writeBlock (block : JsArray) (options : option Options) : M Buffer :=
  logger info "Writing block..." ;;
  let options := orEmpty options in
  let tagNumber := jsOr (tagNumber options) 0x01 in
  let blockAddress := jsOr (blockAddress options) 0x01 in
  let commandBuffer :=
    [Some (COMMAND_IN_DATA_EXCHANGE c); Some tagNumber;
     Some (MIFARE_COMMAND_WRITE_4 c); Some blockAddress] ++ block in
  then_ (sendCommand commandBuffer) writeBlock_then.

(** *** readNdefData (lines 204-263) *)

(** The [while] loop of lines 216-237; [None] when the fuel runs out. *)
Fixpoint tlvLoop (fuel : nat) (block : Buffer) (blockOffset : JsNum) : option TlvScan :=
  match fuel with
  | O => None
  | S fuel =>
      if jsGe blockOffset (Z.of_nat (length block)) then Some NotFound
      else
        let type := indexNum block blockOffset in
        let length := indexNum block (jsAdd blockOffset (Some 1)) in
        if strictEq type TAG_MEM_NDEF_TLV
        then Some (Found length (jsAdd blockOffset (Some 2)))
        else tlvLoop fuel block (jsAdd (jsAdd blockOffset (Some 2)) (toNum length))
  end.

(** The loop run from offset 0; one more round than the block has bytes is
    all a terminating run can take ([tlvLoop_spins]). *)
Definition findNdefTlv (block : Buffer) : option TlvScan :=
  tlvLoop (S (length block)) block (Some 0).

(** [Math.ceil((ndefValueOffset + ndefLength) / 16) - 1] *)
Definition additionalBlocksOf (ndefValueOffset : JsNum) (ndefLength : option byte) : JsNum :=
  (fun n => Math_ceil_div n 16 - 1) <$> jsAdd ndefValueOffset (toNum ndefLength).

(** The named function expression [retrieveBlock] of lines 245-256:
    [None] is the [undefined] it returns when the test fails, [Some p] the
    promise it returns otherwise; [ndefData] is the variable it updates. *)
Fixpoint retrieveBlock (fuel : nat) (additionalBlocks : JsNum) (blockNum : Z)
    (ndefData : Buffer) : option (M Buffer) :=
  if jsLe blockNum additionalBlocks then
    match fuel with
    | O => Some spin
    | S fuel =>
        let blockAddress := 4 * (blockNum + 1) in
        Some (then_ (readBlock (Some {| tagNumber := None; blockAddress := Some blockAddress |}))
                (fun block =>
                   let blockNum := blockNum + 1 in
                   let ndefData := ndefData ++ block in
                   promiseOf (retrieveBlock fuel additionalBlocks blockNum ndefData) ndefData))
    end
  else None.

(** [ndefData.slice(0, ndefLength)]; an [undefined] end is the buffer's end. *)
Definition sliceTo (ndefData : Buffer) (ndefLength : option byte) : Buffer :=
  match ndefLength with
  | Some n => slice ndefData 0 (byteZ n)
  | None => ndefData
  end.

Definition readNdefData_then (block : Buffer) : M (option Buffer) :=
  match findNdefTlv block with
  | None => spin
  | Some NotFound => throw (ThrownError "Unable to locate NDEF TLV (0x03) byte in block:")
  | Some (Found ndefLength ndefValueOffset) =>
      let ndefData := slice block (toInteger ndefValueOffset) (Z.of_nat (length block)) in
      let additionalBlocks := additionalBlocksOf ndefValueOffset ndefLength in
      let allDataPromise :=
        retrieveBlock (Z.to_nat (toInteger additionalBlocks)) additionalBlocks 1 ndefData in
      match allDataPromise with
      | None => throw (TypeError "Cannot read property 'then' of undefined")
      | Some p => then_ p (fun ndefData => ret (Some (sliceTo ndefData ndefLength)))
      end
  end.

(** The result is the data, or [undefined] ([None]). *)
Definition readNdefData : M (option Buffer) :=
  logger info "Reading data..." ;;
  catch_
    (then_ (readBlock (Some {| tagNumber := None; blockAddress := Some 0x04 |}))
       readNdefData_then)
    (fun _ => logger error "ERROR:" ;; ret None).

(** *** writeNdefData (lines 297-337) *)

(** The named function expression [writeBlock] of lines 315-333 ([None]:
    it returned [undefined]); [block] is the array that [splice] shortens. *)
Fixpoint writePages (fuel : nat) (totalBlocks blockNum : Z) (block : JsArray)
    : option (M unit) :=
  if blockNum <? totalBlocks then
    match fuel with
    | O => Some spin
    | S fuel =>
        let blockAddress := 0x04 + blockNum in
        let '(pageData, block) := splice0 PAGE_SIZE block in
        let pageData :=
          if (length pageData <? PAGE_SIZE)%nat then setLength PAGE_SIZE pageData
          else pageData in
        Some (then_ (writeBlock pageData
                       (Some {| tagNumber := None; blockAddress := Some blockAddress |}))
                (fun _ =>
                   let blockNum := blockNum + 1 in
                   promiseOf (writePages fuel totalBlocks blockNum block) tt))
    end
  else None.

(** [[].concat([TAG_MEM_NDEF_TLV, data.length], data, [TAG_MEM_TERMINATOR_TLV])]
    for an array [data] of numbers; it has at least three elements, so
    [totalBlocks] is at least 1 and the function below always returns a
    promise. *)
Definition tlvBlock (data : list Z) : JsArray :=
  [Some TAG_MEM_NDEF_TLV; Some (Z.of_nat (length data))]
    ++ (Some <$> data) ++ [Some TAG_MEM_TERMINATOR_TLV].

Definition writeNdefData (data : list Z) : M unit :=
  logger info "Writing data..." ;;
  let block := tlvBlock data in
  let totalBlocks := Math_ceil_div (Z.of_nat (length block)) (Z.of_nat PAGE_SIZE) in
  promiseOf (writePages (Z.to_nat totalBlocks) totalBlocks 0 block) tt.

(** *** emulateSetData (lines 682-722) *)

Fixpoint emulateSetData_writePages (fuel : nat) (totalBlocks blockNum : Z) (block : JsArray)
    : option (M unit) :=
  if blockNum <? totalBlocks then
    match fuel with
    | O => Some spin
    | S fuel =>
        let blockAddress := 0x04 + blockNum in
        let '(pageData, block) := splice0 PAGE_SIZE block in
        let pageData :=
          if (length pageData <? PAGE_SIZE)%nat then setLength PAGE_SIZE pageData
          else pageData in
        Some (then_ (writeBlock pageData
                       (Some {| tagNumber := None; blockAddress := Some blockAddress |}))
                (fun _ =>
                   let blockNum := blockNum + 1 in
                   promiseOf (emulateSetData_writePages fuel totalBlocks blockNum block) tt))
    end
  else None.

Definition emulateSetData (data : list Z) : M unit :=
  logger info "Writing data... bon code" ;;
  let block := tlvBlock data in
  let totalBlocks := Math_ceil_div (Z.of_nat (length block)) (Z.of_nat PAGE_SIZE) in
  promiseOf (emulateSetData_writePages (Z.to_nat totalBlocks) totalBlocks 0 block) tt.

End Driver.

(** ** The emitters and the requests in flight

    The same [sendCommand], one level down: each call registers its two
    closures with the frame emitter, and every emitted event is delivered
    to the listeners registered at that moment.  A request is named by the
    number of its call; that number stands for its [onFrame] and [onError]
    closures. *)

(** The ['tag'] polling wired in the constructor (lines 41-53). *)
Record Polling := {
  loops : nat;                      (* how many times the polling closure was started *)
  pollers : list nat;               (* the scan requests whose [then] is the polling callback *)
  timers : nat;                     (* pending [setTimeout] callbacks *)
  tagEvents : list (option Tag)     (* the values emitted with 'tag' *)
}.

Record Driver := {
  frameListeners : list nat;            (* frameEmitter, 'frame' *)
  errorListeners : list nat;            (* frameEmitter, 'error' *)
  promises : gmap nat (Outcome Frame);  (* the settled promises; absent: pending *)
  removals : list nat;                  (* the calls of removeListeners(), by request *)
  written : list JsArray;               (* the command buffers framed and given to hal.write *)
  requests : nat;                       (* number of sendCommand calls so far *)
  journal : list LogEntry;
  polling : Polling
}.

(** A driver just constructed (lines 21-54); the SAM configuration that
    follows [hal.init()] is one more call of [sendCommand]. *)
Definition PN532 : Driver := {|
  frameListeners := []; errorListeners := []; promises := ∅; removals := [];
  written := []; requests := 0%nat; journal := [];
  polling := {| loops := 0%nat; pollers := []; timers := 0%nat; tagEvents := [] |}
|}.

(** [emitter.removeListener(event, listener)]: takes out the most recently
    added registration of the listener, if there is one. *)
Fixpoint removeListener (id : nat) (listeners : list nat) : list nat :=
  match listeners with
  | [] => []
  | x :: rest =>
      if decide (x = id) then
        if decide (id ∈ rest) then x :: removeListener id rest else rest
      else x :: removeListener id rest
  end.

(** The executor of the promise of [sendCommand] (lines 57-92): the two
    listeners are added, then the frame of the command is written (the
    transport's [write] is fire-and-forget and is taken not to throw). *)
Definition register (commandBuffer : JsArray) (pn : Driver) : Driver :=
  let id := requests pn in
  {| frameListeners := frameListeners pn ++ [id];
     errorListeners := errorListeners pn ++ [id];
     promises := promises pn;
     removals := removals pn;
     written := written pn ++ [commandBuffer];
     requests := S id;
     journal := journal pn;
     polling := polling pn |}.

(** The polling callback of lines 46-49 on a resolved scan: emit ['tag'],
    then [setTimeout]; nothing is rescheduled when [scanTag] rejects. *)
Definition polled (frame : Frame) (p : Polling) : Polling :=
  match scanTag_then frame with
  | Resolved tag =>
      {| loops := loops p; pollers := pollers p; timers := S (timers p);
         tagEvents := tagEvents p ++ [tag] |}
  | _ => p
  end.

(** [removeListeners()] of lines 59-63. *)
Definition removeListeners (id : nat) (pn : Driver) : Driver :=
  {| frameListeners := removeListener id (frameListeners pn);
     errorListeners := removeListener id (errorListeners pn);
     promises := promises pn;
     removals := removals pn ++ [id];
     written := written pn;
     requests := requests pn;
     journal := journal pn;
     polling := polling pn |}.

(** [resolve(frame)] or [reject(error)]: a promise keeps its first
    settlement, and the [then] of a polling scan runs when it resolves. *)
Definition settlePromise (id : nat) (o : Outcome Frame) (pn : Driver) : Driver :=
  let first := bool_decide (promises pn !! id = None) in
  {| frameListeners := frameListeners pn;
     errorListeners := errorListeners pn;
     promises := if first then <[id := o]> (promises pn) else promises pn;
     removals := removals pn;
     written := written pn;
     requests := requests pn;
     journal := journal pn;
     polling :=
       match o with
       | Resolved frame =>
           if first && bool_decide (id ∈ pollers (polling pn))
           then polled frame (polling pn) else polling pn
       | _ => polling pn
       end |}.

Definition note (entries : list LogEntry) (pn : Driver) : Driver :=
  {| frameListeners := frameListeners pn; errorListeners := errorListeners pn;
     promises := promises pn; removals := removals pn; written := written pn;
     requests := requests pn; journal := journal pn ++ entries; polling := polling pn |}.

(** The settling branch of a listener: the log line, [removeListeners()],
    then [resolve] or [reject] (lines 73-75 and 81-83). *)
Definition settle (id : nat) (entries : list LogEntry) (o : Outcome Frame) (pn : Driver)
    : Driver :=
  settlePromise id o (removeListeners id (note entries pn)).

(** One listener call: the closure of request [id] on the event. *)
Definition deliver (ev : Event) (pn : Driver) (id : nat) : Driver :=
  match react ev with
  | Stay entries => note entries pn
  | Settle entries o => settle id entries o pn
  end.

(** [frameEmitter.emit]: the listeners registered when the event is emitted
    are called in the order of their registration.  What an ['error']
    emitted to no listener does is outside this model. *)
Definition emit (ev : Event) (pn : Driver) : Driver :=
  let listeners :=
    match ev with
    | EvFrame _ => frameListeners pn
    | EvError _ => errorListeners pn
    end in
  foldl (deliver ev) pn listeners.

Definition setPolling (p : Polling) (pn : Driver) : Driver :=
  {| frameListeners := frameListeners pn; errorListeners := errorListeners pn;
     promises := promises pn; removals := removals pn; written := written pn;
     requests := requests pn; journal := journal pn; polling := p |}.

Section Engine.

Variable c : Constants.

(** The closure [scanTag] of lines 45-50: one scan, whose [then] is the
    polling callback. *)
Definition poll (pn : Driver) : Driver :=
  let id := requests pn in
  let pn := register (scanTag_command c) (note [(info, "Scanning tag..."%string)] pn) in
  let p := polling pn in
  setPolling {| loops := loops p; pollers := pollers p ++ [id]; timers := timers p;
                tagEvents := tagEvents p |} pn.

(** ['newListener'] with [event === 'tag'] (lines 41-53): the closure is
    created and started on every subscription. *)
Definition onTag (pn : Driver) : Driver :=
  let p := polling pn in
  poll (setPolling {| loops := S (loops p); pollers := pollers p; timers := timers p;
                      tagEvents := tagEvents p |} pn).

(** A [setTimeout] callback of line 48 fires. *)
Definition timerFires (pn : Driver) : Driver :=
  let p := polling pn in
  match timers p with
  | O => pn
  | S n =>
      poll (setPolling {| loops := loops p; pollers := pollers p; timers := n;
                          tagEvents := tagEvents p |} pn)
  end.

Inductive Op :=
  | SendCommand (commandBuffer : JsArray)  (* pn.sendCommand(commandBuffer) *)
  | Emit (ev : Event)                      (* the frame emitter emits *)
  | OnTag                                  (* pn.on('tag', listener) *)
  | TimerFires.                            (* a poll timer fires *)

Definition step (pn : Driver) (op : Op) : Driver :=
  match op with
  | SendCommand commandBuffer => register commandBuffer pn
  | Emit ev => emit ev pn
  | OnTag => onTag pn
  | TimerFires => timerFires pn
  end.

Definition run (ops : list Op) : Driver := foldl step PN532 ops.

End Engine.

(** ** The other operations of the driver *)

(** More of [constants.js], which is not under src/: the opcodes of the
    operations below, taken as a parameter. *)
Record MoreConstants := {
  COMMAND_SAMCONFIGURATION : Z;
  SAMCONFIGURATION_MODE_NORMAL : Z;
  SAMCONFIGURATION_IRQ_ON : Z;
  COMMAND_GET_FIRMWARE_VERSION : Z;
  COMMAND_GET_GENERAL_STATUS : Z;
  MIFARE_COMMAND_AUTH_A : Z
}.

(** The object that [getFirmwareVersion] returns. *)
Record Firmware := {
  IC : option byte;
  Ver : option byte;
  Rev : option byte;
  Support : option byte
}.

(** The options of [authenticateBlock]; an array is truthy whatever it
    holds, so only a missing key gives the default key. *)
Record AuthOptions := {
  auth_blockAddress : option Z;
  authType : option Z;
  authKey : option JsArray;
  auth_tagNumber : option Z
}.

Definition noAuthOptions : AuthOptions :=
  {| auth_blockAddress := None; authType := None; authKey := None; auth_tagNumber := None |}.

(** The character [':'] (code 58). *)
Definition colon : Ascii.ascii := Ascii.ascii_of_N 58.

(** [uid.split(':')]: the pieces between the colons, at least one. *)
Fixpoint split_colon (s : string) : list string :=
  match s with
  | EmptyString => [EmptyString]
  | String a rest =>
      if Ascii.eqb a colon then EmptyString :: split_colon rest
      else match split_colon rest with
           | piece :: pieces => String a piece :: pieces
           | [] => [String a EmptyString]
           end
  end.

(** The value of a hexadecimal digit, in either case. *)
Definition hexValue (a : Ascii.ascii) : option Z :=
  let n := Z.of_N (Ascii.N_of_ascii a) in
  if (48 <=? n) && (n <=? 57) then Some (n - 48)
  else if (97 <=? n) && (n <=? 102) then Some (n - 87)
  else if (65 <=? n) && (n <=? 70) then Some (n - 55)
  else None.

(** White space of a numeric string, among the code units below 256. *)
Definition isWhiteSpace (a : Ascii.ascii) : bool :=
  let n := Z.of_N (Ascii.N_of_ascii a) in
  ((9 <=? n) && (n <=? 13)) || (n =? 32) || (n =? 160).

Fixpoint allWhiteSpace (s : string) : bool :=
  match s with
  | EmptyString => true
  | String a rest => isWhiteSpace a && allWhiteSpace rest
  end.

(** The digits of [Number('0x' + s)], read from the left: [acc] is the
    value so far and [seen] tells whether a digit was read. *)
Fixpoint hexDigits (s : string) (acc : Z) (seen : bool) : JsNum :=
  match s with
  | EmptyString => if seen then Some acc else None
  | String a rest =>
      match hexValue a with
      | Some d => hexDigits rest (16 * acc + d) true
      | None => if seen && allWhiteSpace s then Some acc else None
      end
  end.

(** [Number('0x' + s)] for a string of code units below 256: the value of
    one or more hexadecimal digits, which white space may follow, and
    [NaN] for anything else.  The value is kept as an integer (a double is
    exact up to thirteen digits). *)
Definition Number_0x (s : string) : JsNum := hexDigits s 0 false.

(** A number stored in an array: [NaN] is kept as [None], which the
    framing reads as the byte [0x00], like an empty slot. *)
Definition element (n : JsNum) : option Z := n.

Section MoreDriver.

Variable c : Constants.
Variable m : MoreConstants.

(** *** configureSecureAccessModule (lines 95-109) *)

Definition configureSecureAccessModule : M Frame :=
  logger info "Configuring secure access module (SAM)..." ;;
  let timeout := 0x00 in
  let commandBuffer :=
    [Some (COMMAND_SAMCONFIGURATION m); Some (SAMCONFIGURATION_MODE_NORMAL m);
     Some timeout; Some (SAMCONFIGURATION_IRQ_ON m)] in
  sendCommand commandBuffer.

(** *** getFirmwareVersion (lines 111-124) *)

Definition getFirmwareVersion : M Firmware :=
  logger info "Getting firmware version..." ;;
  then_ (sendCommand [Some (COMMAND_GET_FIRMWARE_VERSION m)])
    (fun frame =>
       let body := getDataBody frame in
       ret {| IC := index body 0; Ver := index body 1;
              Rev := index body 2; Support := index body 3 |}).

(** *** getGeneralStatus (lines 126-134) *)

Definition getGeneralStatus : M Buffer :=
  logger info "Getting general status..." ;;
  then_ (sendCommand [Some (COMMAND_GET_GENERAL_STATUS m)])
    (fun frame =>
       let body := getDataBody frame in
       ret body).

(** *** authenticateBlock (lines 340-374) *)

Definition authenticateBlock (uid : string) (options : option AuthOptions) : M Buffer :=
  logger info "Authenticating block..." ;;
  let options := default noAuthOptions options in
  let blockAddress := jsOr (auth_blockAddress options) 0x04 in
  let authType := jsOr (authType options) (MIFARE_COMMAND_AUTH_A m) in
  let authKey := default (replicate 6 (Some 0xff)) (authKey options) in
  let tagNumber := jsOr (auth_tagNumber options) 0x01 in
  let uidArray := (fun s => element (Number_0x s)) <$> split_colon uid in
  let commandBuffer :=
    ([Some (COMMAND_IN_DATA_EXCHANGE c); Some tagNumber; Some authType; Some blockAddress]
       ++ authKey) ++ uidArray in
  then_ (sendCommand commandBuffer)
    (fun frame =>
       let body := getDataBody frame in
       logger info "Frame data from mifare classic authenticate" ;;
       ret body).

(** *** emulateTag (lines 376-427) *)

Definition emulateTag_command : JsArray :=
  let commAsTarget := 0x8C in
  let mode := 0x05 in
  let sens_res := [0x04; 0x00] in
  let nfcId1t := [0x00; 0x00; 0x00] in
  let sel_res := [0x20] in
  let mifareParams := sens_res ++ nfcId1t ++ sel_res in
  let felicaParams := [0x01; 0xFE; 0xA2; 0xA3; 0xA4; 0xA5; 0xA6; 0xA7;
                       0xC0; 0xC1; 0xC2; 0xC3; 0xC4; 0xC5; 0xC6; 0xC7;
                       0xFF; 0xFF] in
  let nfcId3t := [0xAA; 0x99; 0x88; 0x77; 0x66; 0x55; 0x44; 0x33; 0x22; 0x11] in
  let generalBytesLength := 0 in
  let historicalBytesLength := 0 in
  Some <$> ([commAsTarget] ++ [mode] ++ mifareParams ++ felicaParams ++ nfcId3t
              ++ [generalBytesLength] ++ [historicalBytesLength]).

Definition emulateTag_then (frame : Frame) : Outcome (option Tag) :=
  let body := getDataBody frame in
  let numberOfTags := index body 0 in
  if strictEq numberOfTags 1 then
    let uidLength := index body 5 in
    let hex := toString_hex (slice body 6 (toInteger (jsAdd (Some 6) (toNum uidLength)))) in
    match match_1_2 hex with
    | None => Rejected (TypeError "Cannot read property 'join' of null")
    | Some parts =>
        Resolved (Some {| ATQA := slice body 2 4; SAK := index body 4; uid := join ":" parts |})
    end
  else Resolved None.

Definition emulateTag : M (option Tag) :=
  logger info "Emulating tag..." ;;
  then_ (sendCommand emulateTag_command) (fun frame => settled (emulateTag_then frame)).

End MoreDriver.

(** ** The vocabulary of the statements *)

(** The opcodes of the PN532 user manual, for the concrete runs below. *)
Definition c0 : Constants := {|
  COMMAND_IN_LIST_PASSIVE_TARGET := 0x4A;
  COMMAND_IN_DATA_EXCHANGE := 0x40;
  CARD_ISO14443A := 0x00;
  MIFARE_COMMAND_READ := 0x30;
  MIFARE_COMMAND_WRITE_4 := 0xA2
|}.

(** The fate of the next request of a world. *)
Definition nextOutcome (w : World) : Outcome Frame :=
  match script w with
  | [] => Pending
  | events :: _ => fst (await events)
  end.

(** The value a block operation's promise takes, from the fate of its request. *)
Definition stripped (o : Outcome Frame) : Outcome Buffer :=
  match o with
  | Resolved frame => Resolved (removelast (tail (getDataBody frame)))
  | Rejected e => Rejected e
  | Pending => Pending
  | Diverged => Diverged
  end.

(** The world in which the request of a block operation is made. *)
Definition entered (message : string) (w : World) : World :=
  {| script := script w; sent := sent w; log := log w ++ [(info, message)] |}.

(** The command buffer that [readBlock] builds. *)
Definition readCommand (c : Constants) (options : option Options) : JsArray :=
  [Some (COMMAND_IN_DATA_EXCHANGE c); Some (jsOr (tagNumber (orEmpty options)) 1);
   Some (MIFARE_COMMAND_READ c); Some (jsOr (blockAddress (orEmpty options)) 1)].

(** The command buffer that [writeBlock] builds. *)
Definition writeCommand (c : Constants) (block : JsArray) (options : option Options)
    : JsArray :=
  [Some (COMMAND_IN_DATA_EXCHANGE c); Some (jsOr (tagNumber (orEmpty options)) 1);
   Some (MIFARE_COMMAND_WRITE_4 c); Some (jsOr (blockAddress (orEmpty options)) 1)] ++ block.

(** How many of the coming requests resolve, one after the other. *)
Fixpoint resolvedPrefix (s : list (list Event)) : nat :=
  match s with
  | [] => O
  | events :: rest =>
      match fst (await events) with
      | Resolved _ => S (resolvedPrefix rest)
      | _ => O
      end
  end.

(** The fate of [n] requests made in turn, each after the one before it
    has resolved. *)
Fixpoint chain (n : nat) (s : list (list Event)) : Outcome unit :=
  match n with
  | O => Resolved tt
  | S n =>
      match s with
      | [] => Pending
      | events :: rest =>
          match fst (await events) with
          | Resolved _ => chain n rest
          | Rejected e => Rejected e
          | Pending => Pending
          | Diverged => Diverged
          end
      end
  end.

(** The data gathered over [n] block reads made in turn. *)
Fixpoint gather (n : nat) (s : list (list Event)) (ndefData : Buffer) : Outcome Buffer :=
  match n with
  | O => Resolved ndefData
  | S n =>
      match s with
      | [] => Pending
      | events :: rest =>
          match fst (await events) with
          | Resolved frame => gather n rest (ndefData ++ removelast (tail (getDataBody frame)))
          | Rejected e => Rejected e
          | Pending => Pending
          | Diverged => Diverged
          end
      end
  end.

(** The command buffers of the reads of blocks [k], [k + 1], ... *)
Definition blockReads (c : Constants) (n k : nat) : list JsArray :=
  (fun j => readCommand c (Some {| tagNumber := None;
                                   blockAddress := Some (4 * (Z.of_nat j + 1)) |}))
    <$> seq k n.

(** The pages in the words of the specification: page [k] holds the four
    bytes from [4 * k] on, and zero bytes where the sequence has ended. *)
Definition pageOf (bytes : list Z) (k : nat) : list Z :=
  let page := take PAGE_SIZE (drop (PAGE_SIZE * k) bytes) in
  page ++ replicate (PAGE_SIZE - length page) 0.

(** The number of pages of a byte sequence. *)
Definition pageCount (bytes : list Z) : nat := ((length bytes + 3) / 4)%nat.

(** The bytes of a command buffer as they are framed. *)
Definition framed (commandBuffer : JsArray) : list Z := slotValue <$> commandBuffer.

(** The header of the write of page [k]. *)
Definition pageHeader (c : Constants) (k : nat) : list Z :=
  [COMMAND_IN_DATA_EXCHANGE c; 0x01; MIFARE_COMMAND_WRITE_4 c; 0x04 + Z.of_nat k].

(** The command buffers of [n] page writes from page [k] on. *)
Fixpoint pageWrites (c : Constants) (n k : nat) (block : JsArray) : list JsArray :=
  match n with
  | O => []
  | S n =>
      writeCommand c (setLength PAGE_SIZE (take PAGE_SIZE block))
        (Some {| tagNumber := None; blockAddress := Some (0x04 + Z.of_nat k) |})
      :: pageWrites c n (S k) (drop PAGE_SIZE block)
  end.

(** How often [removeListeners()] has run for a request. *)
Definition removed (pn : Driver) (id : nat) : nat := count_occ Nat.eq_dec (removals pn) id.

(** What holds of every driver state that can be reached: a request that
    is not settled has its two listeners registered and has removed
    nothing; a settled one has no listener left and has removed once. *)
Record Inv (pn : Driver) : Prop := {
  inv_frame : NoDup (frameListeners pn);
  inv_error : NoDup (errorListeners pn);
  inv_both : forall id, id ∈ frameListeners pn <-> id ∈ errorListeners pn;
  inv_pending : forall id,
      id ∈ frameListeners pn ->
      promises pn !! id = None /\ removed pn id = O /\ (id < requests pn)%nat;
  inv_settled : forall id,
      id ∉ frameListeners pn -> (id < requests pn)%nat ->
      is_Some (promises pn !! id) /\ removed pn id = 1%nat;
  inv_future : forall id,
      (requests pn <= id)%nat -> promises pn !! id = None /\ removed pn id = O;
  inv_size : (length (frameListeners pn) + size (promises pn))%nat = requests pn
}.

(** The state of a driver whose only request so far is pending. *)
Definition oneRequest (commandBuffer : JsArray) (entries : list LogEntry) : Driver :=
  {| frameListeners := [O]; errorListeners := [O]; promises := ∅; removals := [];
     written := [commandBuffer]; requests := 1; journal := entries; polling := polling PN532 |}.

(** A reply of the device: the acknowledgement, then the response. *)
Definition reply (body : Buffer) : list Event :=
  [EvFrame AckFrame; EvFrame (DataFrame DeviceToHost body)].

(** The reply to the read of the [k]-th block of sixteen bytes of a tag
    memory, between a status byte and the trailing byte. *)
Definition memoryReply (status trailer : byte) (memory : Buffer) (k : nat) : list Event :=
  reply (status :: take 16 (drop (16 * k) memory) ++ [trailer]).

(** A TLV entry as the scan of [readNdefData] reads it: a type byte, a
    length byte and the value. *)
Record TlvEntry := {
  tlvType : byte;
  tlvLength : byte;
  tlvValue : Buffer
}.

Definition encodeEntry (e : TlvEntry) : Buffer := tlvType e :: tlvLength e :: tlvValue e.

Definition encodeEntries (es : list TlvEntry) : Buffer := concat (encodeEntry <$> es).

(** An entry that the scan steps over: not the NDEF type, and as long as
    its length byte says. *)
Definition skipped (e : TlvEntry) : Prop :=
  tlvType e <> x03 /\ length (tlvValue e) = Z.to_nat (byteZ (tlvLength e)).

(** The frames that do not settle a request. *)
Definition unsettling (ev : Event) : Prop := ev = EvFrame AckFrame \/ ev = EvFrame NackFrame.

(** The operations that come from outside once nobody calls the driver:
    an emitted event, or a timer. *)
Definition spontaneous (op : Op) : Prop :=
  (exists ev, op = Emit ev) \/ op = TimerFires.

(** The opcodes of the PN532 user manual for the other operations. *)
Definition m0 : MoreConstants := {|
  COMMAND_SAMCONFIGURATION := 0x14;
  SAMCONFIGURATION_MODE_NORMAL := 0x01;
  SAMCONFIGURATION_IRQ_ON := 0x01;
  COMMAND_GET_FIRMWARE_VERSION := 0x02;
  COMMAND_GET_GENERAL_STATUS := 0x04;
  MIFARE_COMMAND_AUTH_A := 0x60
|}.

(** What an emitted event settles a request with, if it settles it. *)
Definition settlement (ev : Event) : option (Outcome Frame) :=
  match ev with
  | EvFrame (DataFrame d body) => Some (Resolved (DataFrame d body))
  | EvFrame _ => None
  | EvError e => Some (Rejected e)
  end.

(** * Properties *)

(** ** Buffers *)

Lemma slice_strip (body : Buffer) :
  slice body 1 (Z.of_nat (length body) - 1) = removelast (tail body).
Proof.
  unfold slice, clampIndex.
  destruct body as [|status memory]; [reflexivity|].
  cbn [tail length].
  rewrite removelast_firstn_len.
  replace (Z.of_nat (S (length memory)) - 1) with (Z.of_nat (length memory)) by lia.
  destruct (Z.ltb_spec 1 0) as [?|_]; [lia|].
  destruct (Z.ltb_spec (Z.of_nat (length memory)) 0) as [?|_]; [lia|].
  destruct memory as [|m memory']; [reflexivity|].
  replace (Z.min 1 (Z.of_nat (S (length (m :: memory'))))) with 1 by (cbn [length]; lia).
  replace (Z.min (Z.of_nat (length (m :: memory'))) (Z.of_nat (S (length (m :: memory')))))
    with (Z.of_nat (length (m :: memory'))) by lia.
  change (Z.to_nat 1) with 1%nat. cbn [drop].
  f_equal. cbn [length]. lia.
Qed.

(** ** Promises *)

Lemma then_eq {A B} (p : M A) (cb : A -> M B) (w : World) :
  then_ p cb w =
    match p w with
    | (Resolved a, w') => cb a w'
    | (Rejected e, w') => (Rejected e, w')
    | (Pending, w') => (Pending, w')
    | (Diverged, w') => (Diverged, w')
    end.
Proof. reflexivity. Qed.

(** ** sendCommand *)

Lemma await_app_stay (pre post : list Event) :
  Forall (fun ev => ev = EvFrame AckFrame \/ ev = EvFrame NackFrame) pre ->
  fst (await (pre ++ post)) = fst (await post).
Proof.
  induction 1 as [|ev pre [-> | ->] _ IH]; [reflexivity| |]; cbn;
    destruct (await (pre ++ post)); destruct (await post); cbn in *; congruence.
Qed.

Lemma await_not_diverged (events : list Event) : fst (await events) <> Diverged.
Proof.
  induction events as [|[[| |d body]|e] rest IH]; cbn; try discriminate;
    destruct (await rest); cbn in *; assumption.
Qed.

Lemma sendCommand_sent commandBuffer w :
  sent (snd (sendCommand commandBuffer w)) = sent w ++ [commandBuffer].
Proof.
  unfold sendCommand. destruct (script w); [reflexivity|].
  destruct (await _); reflexivity.
Qed.

Lemma sendCommand_script commandBuffer w :
  script (snd (sendCommand commandBuffer w)) = tail (script w).
Proof.
  unfold sendCommand. destruct (script w); [reflexivity|].
  destruct (await _); reflexivity.
Qed.

Lemma sendCommand_outcome commandBuffer w :
  fst (sendCommand commandBuffer w) =
    match script w with
    | [] => Pending
    | events :: _ => fst (await events)
    end.
Proof.
  unfold sendCommand. destruct (script w); [reflexivity|].
  destruct (await _); reflexivity.
Qed.

Lemma sendCommand_log commandBuffer w :
  log (snd (sendCommand commandBuffer w)) =
    log w ++ match script w with
             | [] => []
             | events :: _ => snd (await events)
             end.
Proof.
  unfold sendCommand. destruct (script w); cbn; [by rewrite app_nil_r|].
  destruct (await _); reflexivity.
Qed.

(** C1, as the code has it: the first data frame delivered to the request
    resolves it with that frame, whatever its direction and whether or not
    an acknowledgement came first; the Ack and Nack frames before it do not
    count. *)
Theorem sendCommand_resolves_on_first_data
    (commandBuffer : JsArray) (w : World) (pre post : list Event)
    (more : list (list Event)) (d : Direction) (body : Buffer) :
  script w = (pre ++ EvFrame (DataFrame d body) :: post) :: more ->
  Forall (fun ev => ev = EvFrame AckFrame \/ ev = EvFrame NackFrame) pre ->
  fst (sendCommand commandBuffer w) = Resolved (DataFrame d body).
Proof.
  intros Hscript Hpre.
  rewrite sendCommand_outcome, Hscript.
  rewrite await_app_stay by assumption.
  reflexivity.
Qed.

Lemma sendCommand_resolves_on_first_data_witness :
  fst (sendCommand [Some 0x4A; Some 1; Some 0]
         {| script := [[EvFrame (DataFrame DeviceToHost [x00])]]; sent := []; log := [] |})
  = Resolved (DataFrame DeviceToHost [x00]).
Proof.
  apply (sendCommand_resolves_on_first_data _ _ [] [] [] DeviceToHost [x00]).
  - reflexivity.
  - constructor.
Defined.

(** C1 fails on the code: a device-to-host data frame delivered with no
    acknowledgement before it resolves the request; the later
    acknowledgement is not even looked at. *)
Lemma sendCommand_data_before_ack_resolves :
  let frame := DataFrame DeviceToHost [x00; x41] in
  let w := {| script := [[EvFrame frame; EvFrame AckFrame]]; sent := []; log := [] |} in
  fst (sendCommand [Some 0x4A; Some 1; Some 0] w) = Resolved frame
  /\ (forall e, fst (sendCommand [Some 0x4A; Some 1; Some 0] w) <> Rejected e).
Proof. split; [reflexivity | intros e; discriminate]. Qed.

(** ** readBlock and writeBlock *)

Section DriverFacts.

Variable c : Constants.

Lemma readBlock_then_outcome frame w :
  fst (readBlock_then frame w) = Resolved (removelast (tail (getDataBody frame))).
Proof.
  unfold readBlock_then, then_. rewrite slice_strip.
  destruct (strictEq _ _); reflexivity.
Qed.

Lemma readBlock_then_world frame w :
  snd (readBlock_then frame w) =
    {| script := script w; sent := sent w;
       log := log w ++ if strictEq (index (getDataBody frame) 0) 0x13
                       then [(warn, "The data format does not match to the specification."%string)]
                       else [] |}.
Proof.
  unfold readBlock_then, then_.
  destruct (strictEq _ _); cbn; [reflexivity|].
  rewrite app_nil_r. by destruct w.
Qed.

Lemma exchange_outcome commandBuffer w :
  fst (then_ (sendCommand commandBuffer) readBlock_then w) = stripped (nextOutcome w).
Proof.
  unfold then_, nextOutcome.
  rewrite <- (sendCommand_outcome commandBuffer w).
  destruct (sendCommand commandBuffer w) as [[frame|e| |] w']; cbn; try reflexivity.
  apply readBlock_then_outcome.
Qed.

Lemma exchange_sent commandBuffer w :
  sent (snd (then_ (sendCommand commandBuffer) readBlock_then w)) = sent w ++ [commandBuffer].
Proof.
  unfold then_.
  pose proof (sendCommand_sent commandBuffer w) as Hs.
  destruct (sendCommand commandBuffer w) as [[frame|e| |] w']; cbn in Hs; try exact Hs.
  by rewrite readBlock_then_world.
Qed.

Lemma exchange_script commandBuffer w :
  script (snd (then_ (sendCommand commandBuffer) readBlock_then w)) = tail (script w).
Proof.
  unfold then_.
  pose proof (sendCommand_script commandBuffer w) as Hs.
  destruct (sendCommand commandBuffer w) as [[frame|e| |] w']; cbn in Hs; try exact Hs.
  by rewrite readBlock_then_world.
Qed.

Lemma exchange_log commandBuffer w :
  log (snd (then_ (sendCommand commandBuffer) readBlock_then w)) =
    log w ++ match script w with
             | [] => []
             | events :: _ =>
                 snd (await events) ++
                 match fst (await events) with
                 | Resolved frame =>
                     if strictEq (index (getDataBody frame) 0) 0x13
                     then [(warn, "The data format does not match to the specification."%string)]
                     else []
                 | _ => []
                 end
             end.
Proof.
  unfold then_, sendCommand.
  destruct (script w) as [|events rest]; cbn; [by rewrite app_nil_r|].
  destruct (await events) as [[frame|e| |] entries]; cbn; rewrite ?app_nil_r; try reflexivity.
  rewrite readBlock_then_world. cbn. by rewrite <- app_assoc.
Qed.

Lemma readBlock_unfold options w :
  readBlock c options w =
    then_ (sendCommand (readCommand c options)) readBlock_then (entered "Reading block..." w).
Proof. reflexivity. Qed.

Lemma writeBlock_unfold block options w :
  writeBlock c block options w =
    then_ (sendCommand (writeCommand c block options)) readBlock_then
      (entered "Writing block..." w).
Proof. reflexivity. Qed.

Lemma readBlock_outcome options w :
  fst (readBlock c options w) = stripped (nextOutcome w).
Proof. rewrite readBlock_unfold, exchange_outcome. reflexivity. Qed.

Lemma readBlock_sent options w :
  sent (snd (readBlock c options w)) = sent w ++ [readCommand c options].
Proof. rewrite readBlock_unfold, exchange_sent. reflexivity. Qed.

Lemma readBlock_script options w :
  script (snd (readBlock c options w)) = tail (script w).
Proof. rewrite readBlock_unfold, exchange_script. reflexivity. Qed.

Lemma writeBlock_outcome block options w :
  fst (writeBlock c block options w) = stripped (nextOutcome w).
Proof. rewrite writeBlock_unfold, exchange_outcome. reflexivity. Qed.

Lemma writeBlock_sent block options w :
  sent (snd (writeBlock c block options w)) = sent w ++ [writeCommand c block options].
Proof. rewrite writeBlock_unfold, exchange_sent. reflexivity. Qed.

Lemma writeBlock_script block options w :
  script (snd (writeBlock c block options w)) = tail (script w).
Proof. rewrite writeBlock_unfold, exchange_script. reflexivity. Qed.

(** C6: when the request of [readBlock] resolves with a frame of body
    [body], the operation resolves with [body] less its first and last
    bytes; a status byte [0x13] adds one warning to the log and changes
    nothing else. *)
Theorem readBlock_strips_status_and_trailer
    (options : option Options) (w : World) (events : list Event)
    (more : list (list Event)) (d : Direction) (body : Buffer) :
  script w = events :: more ->
  fst (await events) = Resolved (DataFrame d body) ->
  fst (readBlock c options w) = Resolved (removelast (tail body))
  /\ log (snd (readBlock c options w)) =
       log w ++ [(info, "Reading block..."%string)] ++ snd (await events) ++
       (if strictEq (index body 0) 0x13
        then [(warn, "The data format does not match to the specification."%string)]
        else []).
Proof.
  intros Hscript Hawait. split.
  - rewrite readBlock_outcome. unfold nextOutcome. rewrite Hscript, Hawait. reflexivity.
  - rewrite readBlock_unfold, exchange_log. cbn [entered script log].
    rewrite Hscript, Hawait. cbn [getDataBody]. by rewrite <- app_assoc.
Qed.

Lemma jsOr_falsy (z : option Z) (d : Z) : z = None \/ z = Some 0 -> jsOr z d = d.
Proof. by intros [-> | ->]. Qed.

(** C9: a tag number or a block address given as [0], or left out, is
    replaced by [0x01] in the command of [readBlock] and in the command of
    [writeBlock], whatever the other option is; the operation then runs
    exactly as with the option [0x01], so that [0] and absent cannot be
    told apart and no command carries a [0] in either position. *)
Theorem zero_option_is_default
    (z other : option Z) (block : JsArray) (w : World) :
  z = None \/ z = Some 0 ->
  sent (snd (readBlock c (Some {| tagNumber := z; blockAddress := other |}) w)) =
    sent w ++ [[Some (COMMAND_IN_DATA_EXCHANGE c); Some 0x01;
                Some (MIFARE_COMMAND_READ c); Some (jsOr other 0x01)]]
  /\ sent (snd (readBlock c (Some {| tagNumber := other; blockAddress := z |}) w)) =
       sent w ++ [[Some (COMMAND_IN_DATA_EXCHANGE c); Some (jsOr other 0x01);
                   Some (MIFARE_COMMAND_READ c); Some 0x01]]
  /\ sent (snd (writeBlock c block (Some {| tagNumber := z; blockAddress := other |}) w)) =
       sent w ++ [[Some (COMMAND_IN_DATA_EXCHANGE c); Some 0x01;
                   Some (MIFARE_COMMAND_WRITE_4 c); Some (jsOr other 0x01)] ++ block]
  /\ sent (snd (writeBlock c block (Some {| tagNumber := other; blockAddress := z |}) w)) =
       sent w ++ [[Some (COMMAND_IN_DATA_EXCHANGE c); Some (jsOr other 0x01);
                   Some (MIFARE_COMMAND_WRITE_4 c); Some 0x01] ++ block]
  /\ readBlock c (Some {| tagNumber := z; blockAddress := other |}) w
     = readBlock c (Some {| tagNumber := Some 0x01; blockAddress := other |}) w
  /\ readBlock c (Some {| tagNumber := other; blockAddress := z |}) w
     = readBlock c (Some {| tagNumber := other; blockAddress := Some 0x01 |}) w
  /\ writeBlock c block (Some {| tagNumber := z; blockAddress := other |}) w
     = writeBlock c block (Some {| tagNumber := Some 0x01; blockAddress := other |}) w
  /\ writeBlock c block (Some {| tagNumber := other; blockAddress := z |}) w
     = writeBlock c block (Some {| tagNumber := other; blockAddress := Some 0x01 |}) w
  /\ readBlock c None w
     = readBlock c (Some {| tagNumber := Some 0x01; blockAddress := Some 0x01 |}) w
  /\ writeBlock c block None w
     = writeBlock c block (Some {| tagNumber := Some 0x01; blockAddress := Some 0x01 |}) w
  /\ (forall n, jsOr (Some n) 0x01 <> 0).
Proof.
  intros Hz.
  rewrite !readBlock_sent, !writeBlock_sent, !readBlock_unfold, !writeBlock_unfold.
  unfold readCommand, writeCommand.
  cbn [orEmpty default from_option id tagNumber blockAddress].
  rewrite !(jsOr_falsy z 1 Hz).
  repeat split. intros [|n|n]; discriminate.
Qed.

End DriverFacts.

Lemma readBlock_strips_status_and_trailer_witness :
  let w := {| script := [[EvFrame AckFrame;
                          EvFrame (DataFrame DeviceToHost [x13; x0a; x0b; x0c; x0d; x90])]];
              sent := []; log := [] |} in
  fst (readBlock c0 None w) = Resolved [x0a; x0b; x0c; x0d]
  /\ log (snd (readBlock c0 None w)) =
       [(info, "Reading block..."%string); (info, "Command Acknowledged"%string);
        (info, "Command Response"%string);
        (warn, "The data format does not match to the specification."%string)].
Proof.
  intros w.
  exact (readBlock_strips_status_and_trailer c0 None w _ [] DeviceToHost
           [x13; x0a; x0b; x0c; x0d; x90] eq_refl eq_refl).
Defined.

Lemma zero_option_is_default_witness :
  let w := {| script := []; sent := []; log := [] |} in
  let page := [Some 1; Some 2; Some 3; Some 4] in
  sent (snd (readBlock c0 (Some {| tagNumber := Some 0; blockAddress := Some 0 |}) w))
  = [[Some 0x40; Some 0x01; Some 0x30; Some 0x01]]
  /\ sent (snd (writeBlock c0 page (Some {| tagNumber := Some 0; blockAddress := Some 0 |}) w))
     = [[Some 0x40; Some 0x01; Some 0xA2; Some 0x01; Some 1; Some 2; Some 3; Some 4]].
Proof.
  intros w page.
  destruct (zero_option_is_default c0 (Some 0) (Some 0) page w (or_intror eq_refl))
    as (Hread & _ & Hwrite & _).
  split; [exact Hread | exact Hwrite].
Defined.

(** ** scanTag *)

Lemma pairs_toString_hex (buf : Buffer) : pairs (toString_hex buf) = hexByte <$> buf.
Proof.
  induction buf as [|b rest IH]; [reflexivity|].
  cbn [toString_hex fmap list_fmap]. rewrite <- IH. reflexivity.
Qed.

(** With one target and at least one UID byte in the body, the tag is read
    off the body as C5 says. *)
Lemma scanTag_then_tag (d : Direction) (body : Buffer) (u : byte) (us : Buffer) :
  index body 0 = Some x01 ->
  slice body 6 (toInteger (jsAdd (Some 6) (toNum (index body 5)))) = u :: us ->
  scanTag_then (DataFrame d body) =
    Resolved (Some {| ATQA := slice body 2 4; SAK := index body 4;
                      uid := join ":" (hexByte <$> u :: us) |}).
Proof.
  intros Hcount Huid. unfold scanTag_then. cbn [getDataBody].
  rewrite Hcount. cbn [strictEq]. change (byteZ x01 =? 1) with true. cbv iota.
  unfold match_1_2. rewrite pairs_toString_hex, Huid. reflexivity.
Qed.

(** With one target and no UID byte, the [join] is called on [null]. *)
Lemma scanTag_then_no_uid (d : Direction) (body : Buffer) :
  index body 0 = Some x01 ->
  slice body 6 (toInteger (jsAdd (Some 6) (toNum (index body 5)))) = [] ->
  scanTag_then (DataFrame d body) = Rejected (TypeError "Cannot read property 'join' of null").
Proof.
  intros Hcount Huid. unfold scanTag_then. cbn [getDataBody].
  rewrite Hcount. cbn [strictEq]. change (byteZ x01 =? 1) with true. cbv iota.
  unfold match_1_2. rewrite pairs_toString_hex, Huid. reflexivity.
Qed.

(** Any other count, or an empty body: no tag, no error. *)
Lemma scanTag_then_no_tag (d : Direction) (body : Buffer) :
  index body 0 <> Some x01 ->
  scanTag_then (DataFrame d body) = Resolved None.
Proof.
  intros Hcount. unfold scanTag_then. cbn [getDataBody].
  destruct (index body 0) as [b|] eqn:Hb; [|reflexivity].
  cbn [strictEq]. destruct (Z.eqb_spec (byteZ b) 1) as [Hone|]; [|reflexivity].
  exfalso. apply Hcount. f_equal.
  assert (Hn : Byte.to_N b = Byte.to_N x01) by (unfold byteZ in Hone; cbn; lia).
  apply (f_equal Byte.of_N) in Hn. rewrite !Byte.of_to_N in Hn. congruence.
Qed.

Lemma scanTag_outcome (c : Constants) (w : World) :
  fst (scanTag c w) =
    match nextOutcome w with
    | Resolved frame => scanTag_then frame
    | Rejected e => Rejected e
    | Pending => Pending
    | Diverged => Diverged
    end.
Proof.
  unfold scanTag. unfold then_ at 1. cbn [logger].
  set (w1 := {| script := script w; sent := sent w; log := _ |}).
  change (nextOutcome w) with (nextOutcome w1). unfold nextOutcome.
  rewrite <- (sendCommand_outcome (scanTag_command c) w1). unfold then_.
  destruct (sendCommand _ _) as [[frame|e| |] w']; reflexivity.
Qed.

(** The sample of the specification. *)
Example scanTag_sample (c : Constants) :
  fst (scanTag c {| script := [[EvFrame AckFrame;
                                EvFrame (DataFrame DeviceToHost
                                           [x01; x01; x00; x04; x08; x04; xde; xad; xbe; xef])]];
                    sent := []; log := [] |})
  = Resolved (Some {| ATQA := [x00; x04]; SAK := Some x08; uid := "de:ad:be:ef" |}).
Proof. reflexivity. Qed.

(** C5 on the code: a body that announces one target and holds no UID byte
    makes [scanTag] reject with a TypeError; no tag is returned although
    [body[0]] is 1. *)
Theorem scanTag_one_target_without_uid_rejects (c : Constants) :
  fst (scanTag c {| script := [[EvFrame AckFrame;
                                EvFrame (DataFrame DeviceToHost
                                           [x01; x01; x00; x04; x08; x00])]];
                    sent := []; log := [] |})
  = Rejected (TypeError "Cannot read property 'join' of null").
Proof. reflexivity. Qed.

(** ** readNdefData *)

Lemma tlvLoop_NaN (fuel : nat) (block : Buffer) : tlvLoop fuel block None = None.
Proof. induction fuel as [|fuel IH]; [reflexivity | exact IH]. Qed.

Lemma byteZ_nonneg (b : byte) : 0 <= byteZ b.
Proof. unfold byteZ. lia. Qed.

(** The fuel given by [findNdefTlv] is enough: when the loop has not
    returned by then, its offset has become [NaN] and it never returns. *)
Lemma tlvLoop_spins_from (block : Buffer) (fuel : nat) (o : Z) :
  0 <= o ->
  (Z.to_nat (Z.of_nat (length block) - o) < fuel)%nat ->
  tlvLoop fuel block (Some o) = None ->
  forall fuel', tlvLoop fuel' block (Some o) = None.
Proof.
  revert o. induction fuel as [|fuel IH]; intros o Ho Hfuel Hnone; [lia|].
  cbn [tlvLoop jsGe indexNum jsAdd] in Hnone.
  intros [|fuel']; [reflexivity|].
  cbn [tlvLoop jsGe indexNum jsAdd].
  destruct (Z.leb_spec (Z.of_nat (length block)) o) as [|Hlt]; [discriminate|].
  destruct (strictEq (index block o) TAG_MEM_NDEF_TLV); [discriminate|].
  destruct (index block (o + 1)) as [len|]; cbn [toNum fmap option_fmap option_map] in *.
  - pose proof (byteZ_nonneg len). apply IH; [lia|lia|exact Hnone].
  - apply tlvLoop_NaN.
Qed.

Lemma tlvLoop_spins (block : Buffer) :
  findNdefTlv block = None -> forall fuel, tlvLoop fuel block (Some 0) = None.
Proof. intros Hnone. apply (tlvLoop_spins_from block (S (length block))); [lia|lia|exact Hnone]. Qed.

(** A result of the loop does not depend on the fuel left over. *)
Lemma tlvLoop_more_fuel (block : Buffer) (fuel extra : nat) (offset : JsNum) (r : TlvScan) :
  tlvLoop fuel block offset = Some r -> tlvLoop (fuel + extra) block offset = Some r.
Proof.
  revert offset. induction fuel as [|fuel IH]; intros offset H; [discriminate|].
  cbn [tlvLoop Nat.add] in *.
  destruct (jsGe offset _); [exact H|].
  destruct (strictEq _ _); [exact H|].
  by apply IH.
Qed.

Section NdefFacts.

Variable c : Constants.

(** C2, as the code has it: when the scan of the first block ends without
    the NDEF type, the error thrown is caught by the operation's own
    [catch], which logs it; the promise resolves with [undefined] and no
    further block is read. *)
Theorem readNdefData_tlv_not_found_is_logged
    (w : World) (events : list Event) (more : list (list Event))
    (d : Direction) (body : Buffer) :
  script w = events :: more ->
  fst (await events) = Resolved (DataFrame d body) ->
  findNdefTlv (removelast (tail body)) = Some NotFound ->
  fst (readNdefData c w) = Resolved None
  /\ sent (snd (readNdefData c w)) =
       sent w ++ [[Some (COMMAND_IN_DATA_EXCHANGE c); Some 0x01;
                   Some (MIFARE_COMMAND_READ c); Some 0x04]]
  /\ script (snd (readNdefData c w)) = more
  /\ last (log (snd (readNdefData c w))) = Some (error, "ERROR:"%string).
Proof.
  intros Hscript Hawait Hscan.
  set (options := Some {| tagNumber := None; blockAddress := Some 4 |}).
  set (w1 := entered "Reading data..." w).
  assert (Hrun : exists w2,
             readNdefData c w =
               (Resolved None,
                {| script := script w2; sent := sent w2;
                   log := log w2 ++ [(error, "ERROR:"%string)] |})
             /\ sent w2 = sent w ++ [readCommand c options]
             /\ script w2 = more).
  { pose proof (readBlock_outcome c options w1) as Ho.
    pose proof (readBlock_sent c options w1) as Hs.
    pose proof (readBlock_script c options w1) as Hsc.
    change (readNdefData c w)
      with (catch_ (then_ (readBlock c options) (readNdefData_then c))
              (fun _ => logger error "ERROR:" ;; ret None) w1).
    unfold catch_. unfold then_ at 1.
    destruct (readBlock c options w1) as [o w2].
    cbn [fst snd] in Ho, Hs, Hsc.
    unfold nextOutcome in Ho. cbn [w1 entered script] in Ho, Hsc.
    rewrite Hscript in Ho, Hsc. rewrite Hawait in Ho.
    cbn [stripped getDataBody] in Ho. subst o.
    exists w2. cbv beta iota. unfold readNdefData_then. rewrite Hscan.
    repeat split; assumption. }
  destruct Hrun as (w2 & -> & Hs & Hsc). cbn [fst snd script sent log].
  repeat split; try assumption.
  by rewrite last_snoc.
Qed.

(** Whenever the value ends inside the first block, so that no further
    block is needed, [retrieveBlock(1)] returns [undefined] and the
    operation ends with [undefined] and one logged error. *)
Lemma readNdefData_no_additional_block
    (w : World) (events : list Event) (more : list (list Event))
    (d : Direction) (body : Buffer) (L : byte) (v : Z) :
  script w = events :: more ->
  fst (await events) = Resolved (DataFrame d body) ->
  findNdefTlv (removelast (tail body)) = Some (Found (Some L) (Some v)) ->
  Math_ceil_div (v + byteZ L) 16 - 1 <= 0 ->
  fst (readNdefData c w) = Resolved None
  /\ sent (snd (readNdefData c w)) =
       sent w ++ [readCommand c (Some {| tagNumber := None; blockAddress := Some 4 |})]
  /\ last (log (snd (readNdefData c w))) = Some (error, "ERROR:"%string).
Proof.
  intros Hscript Hawait Hscan Hblocks.
  set (options := Some {| tagNumber := None; blockAddress := Some 4 |}).
  set (w1 := entered "Reading data..." w).
  assert (Hrun : exists w2,
             readNdefData c w =
               (Resolved None,
                {| script := script w2; sent := sent w2;
                   log := log w2 ++ [(error, "ERROR:"%string)] |})
             /\ sent w2 = sent w ++ [readCommand c options]).
  { pose proof (readBlock_outcome c options w1) as Ho.
    pose proof (readBlock_sent c options w1) as Hs.
    change (readNdefData c w)
      with (catch_ (then_ (readBlock c options) (readNdefData_then c))
              (fun _ => logger error "ERROR:" ;; ret None) w1).
    unfold catch_. rewrite (then_eq (readBlock c options) _ w1).
    destruct (readBlock c options w1) as [o w2].
    cbn [fst snd] in Ho, Hs.
    unfold nextOutcome in Ho. cbn [w1 entered script] in Ho.
    rewrite Hscript, Hawait in Ho.
    cbn [stripped getDataBody] in Ho. subst o.
    exists w2. unfold readNdefData_then. rewrite Hscan.
    unfold additionalBlocksOf.
    cbn [jsAdd toNum fmap option_fmap option_map toInteger default from_option id].
    assert (Hnone : forall fuel ndefData,
               retrieveBlock c fuel (Some (Math_ceil_div (v + byteZ L) 16 - 1)) 1 ndefData = None).
    { intros [|fuel] ndefData; cbn [retrieveBlock jsLe];
        destruct (Z.leb_spec 1 (Math_ceil_div (v + byteZ L) 16 - 1)); (lia || reflexivity). }
    rewrite Hnone. split; [reflexivity | assumption]. }
  destruct Hrun as (w2 & -> & Hs). cbn [fst snd script sent log].
  repeat split; [assumption|]. by rewrite last_snoc.
Qed.

End NdefFacts.

Lemma readNdefData_tlv_not_found_is_logged_witness :
  let body := [x00] ++ replicate 16 x00 ++ [x90] in
  let w := {| script := [[EvFrame AckFrame; EvFrame (DataFrame DeviceToHost body)]];
              sent := []; log := [] |} in
  fst (readNdefData c0 w) = Resolved None
  /\ sent (snd (readNdefData c0 w)) = [] ++ [[Some 0x40; Some 0x01; Some 0x30; Some 0x04]]
  /\ script (snd (readNdefData c0 w)) = []
  /\ last (log (snd (readNdefData c0 w))) = Some (error, "ERROR:"%string).
Proof.
  intros body w.
  exact (readNdefData_tlv_not_found_is_logged c0 w _ [] DeviceToHost body
           eq_refl eq_refl eq_refl).
Defined.

(** C2 fails on the code: the first block holds sixteen NULL TLV bytes, the
    scan runs off its end, and the caller's promise resolves (with
    [undefined]) instead of rejecting. *)
Lemma readNdefData_tlv_not_found_resolves :
  let body := [x00] ++ replicate 16 x00 ++ [x90] in
  let w := {| script := [[EvFrame AckFrame; EvFrame (DataFrame DeviceToHost body)]];
              sent := []; log := [] |} in
  findNdefTlv (removelast (tail body)) = Some NotFound
  /\ fst (readNdefData c0 w) = Resolved None
  /\ (forall e, fst (readNdefData c0 w) <> Rejected e).
Proof. repeat split; intros; discriminate. Qed.

(** C4 on the code: the sample page of the specification (NDEF TLV of
    length 3 at offset 0, so no further block is needed); [retrieveBlock(1)]
    returns [undefined], the [then] on it raises a TypeError that the
    [catch] logs, and the operation resolves with [undefined], not with the
    three bytes of the value. *)
Theorem readNdefData_without_additional_block_loses_data (c : Constants) :
  let block := [x03; x03; x41; x42; x43; xfe] ++ replicate 10 x00 in
  let w := {| script := [[EvFrame AckFrame;
                          EvFrame (DataFrame DeviceToHost ([x00] ++ block ++ [x90]))]];
              sent := []; log := [] |} in
  findNdefTlv block = Some (Found (Some x03) (Some 2))
  /\ additionalBlocksOf (Some 2) (Some x03) = Some 0
  /\ fst (readNdefData c w) = Resolved None
  /\ last (log (snd (readNdefData c w))) = Some (error, "ERROR:"%string).
Proof. repeat split. Qed.

(** ** writeNdefData *)

Section WriteFacts.

Variable c : Constants.

Lemma short_page (block : JsArray) :
  (if (length (take PAGE_SIZE block) <? PAGE_SIZE)%nat
   then setLength PAGE_SIZE (take PAGE_SIZE block)
   else take PAGE_SIZE block) = setLength PAGE_SIZE (take PAGE_SIZE block).
Proof.
  destruct (Nat.ltb_spec (length (take PAGE_SIZE block)) PAGE_SIZE) as [|Hge]; [reflexivity|].
  unfold setLength. pose proof (length_take_le block PAGE_SIZE) as Hle.
  rewrite length_take in *.
  replace (PAGE_SIZE - _)%nat with O by lia. cbn. by rewrite app_nil_r.
Qed.

Lemma writePages_step (n k : nat) (block : JsArray) :
  promiseOf (writePages c (S n) (Z.of_nat (k + S n)) (Z.of_nat k) block) tt =
    then_ (writeBlock c (setLength PAGE_SIZE (take PAGE_SIZE block))
             (Some {| tagNumber := None; blockAddress := Some (0x04 + Z.of_nat k) |}))
      (fun _ => promiseOf (writePages c n (Z.of_nat (S k + n)) (Z.of_nat (S k))
                             (drop PAGE_SIZE block)) tt).
Proof.
  cbn [writePages].
  destruct (Z.ltb_spec (Z.of_nat k) (Z.of_nat (k + S n))) as [_|]; [|lia].
  unfold splice0. rewrite short_page. cbn [promiseOf].
  replace (Z.of_nat k + 1) with (Z.of_nat (S k)) by lia.
  replace (k + S n)%nat with (S k + n)%nat by lia.
  reflexivity.
Qed.

Lemma writePages_done (k : nat) (block : JsArray) :
  promiseOf (writePages c O (Z.of_nat (k + O)) (Z.of_nat k) block) tt = ret tt.
Proof.
  cbn [writePages].
  destruct (Z.ltb_spec (Z.of_nat k) (Z.of_nat (k + 0))) as [|_]; [lia|reflexivity].
Qed.

(** The run of the page loop: which commands are sent, what is left of the
    script, and how the promise ends. *)
Lemma writePages_run (n : nat) :
  forall (k : nat) (block : JsArray) (w : World),
    let r := promiseOf (writePages c n (Z.of_nat (k + n)) (Z.of_nat k) block) tt w in
    sent (snd r) = sent w ++ take (S (resolvedPrefix (script w))) (pageWrites c n k block)
    /\ fst r = chain n (script w)
    /\ script (snd r) = drop (Nat.min n (S (resolvedPrefix (script w)))) (script w).
Proof.
  induction n as [|n IH]; intros k block w r; subst r.
  - rewrite writePages_done. cbn. rewrite app_nil_r. by destruct (script w).
  - rewrite writePages_step.
    set (page := setLength PAGE_SIZE (take PAGE_SIZE block)).
    set (options := Some {| tagNumber := None; blockAddress := Some (4 + Z.of_nat k) |}).
    rewrite (then_eq (writeBlock c page options) _ w).
    pose proof (writeBlock_outcome c page options w) as Ho.
    pose proof (writeBlock_sent c page options w) as Hs.
    pose proof (writeBlock_script c page options w) as Hsc.
    destruct (writeBlock c page options w) as [o w2]. cbn [fst snd] in Ho, Hs, Hsc.
    unfold nextOutcome in Ho. cbn [pageWrites chain resolvedPrefix].
    fold page options.
    destruct (script w) as [|events rest] eqn:Hscript.
    + cbn in Ho. subst o. cbn [fst snd]. rewrite Hs, Hsc. by rewrite Nat.min_comm.
    + cbn [tail] in Hsc. cbn [resolvedPrefix chain].
      destruct (fst (await events)) as [frame|e| |] eqn:Hawait; cbn in Ho; subst o;
        cbn [fst snd]; try (rewrite Hs, Hsc; by rewrite Nat.min_comm).
      destruct (IH (S k) (drop PAGE_SIZE block) w2) as (IHs & IHo & IHsc).
      rewrite IHs, IHo, IHsc, Hs, Hsc. cbn [take drop Nat.min].
      by rewrite <- app_assoc.
Qed.

End WriteFacts.

Lemma ceil_div_pages (n : nat) :
  Math_ceil_div (Z.of_nat n) (Z.of_nat PAGE_SIZE) = Z.of_nat ((n + 3) / 4).
Proof.
  unfold Math_ceil_div, PAGE_SIZE. rewrite Nat2Z.inj_div.
  change (Z.of_nat 4) with 4. rewrite Nat2Z.inj_add. change (Z.of_nat 3) with 3.
  generalize (Z.of_nat n). intros a.
  pose proof (Z.div_mod (- a) 4 ltac:(lia)) as H1.
  pose proof (Z.mod_pos_bound (- a) 4 ltac:(lia)) as H2.
  pose proof (Z.div_mod (a + 3) 4 ltac:(lia)) as H3.
  pose proof (Z.mod_pos_bound (a + 3) 4 ltac:(lia)) as H4.
  lia.
Qed.

Lemma jsOr_nonzero (n d : Z) : n <> 0 -> jsOr (Some n) d = n.
Proof. intros Hn. destruct n; [congruence|reflexivity|reflexivity]. Qed.

Section PageFacts.

Variable c : Constants.

Lemma framed_page (bytes : list Z) (k : nat) :
  framed (setLength PAGE_SIZE (take PAGE_SIZE (drop (PAGE_SIZE * k) (Some <$> bytes))))
  = pageOf bytes k.
Proof.
  unfold framed, setLength, pageOf.
  rewrite fmap_app, fmap_replicate, <- fmap_drop, <- fmap_take, <- list_fmap_compose.
  rewrite length_fmap. f_equal. apply list_fmap_id.
Qed.

Lemma pageWrites_framed (n : nat) :
  forall (k : nat) (bytes : list Z),
    framed <$> pageWrites c n k (drop (PAGE_SIZE * k) (Some <$> bytes))
    = (fun j => pageHeader c j ++ pageOf bytes j) <$> seq k n.
Proof.
  induction n as [|n IH]; intros k bytes; [reflexivity|].
  cbn [pageWrites seq fmap list_fmap]. f_equal.
  - unfold writeCommand, framed. rewrite fmap_app. fold (framed (setLength PAGE_SIZE
      (take PAGE_SIZE (drop (PAGE_SIZE * k) (Some <$> bytes))))).
    rewrite framed_page. cbn [orEmpty default from_option id tagNumber blockAddress].
    rewrite jsOr_nonzero by lia. reflexivity.
  - rewrite drop_drop. replace (PAGE_SIZE * k + PAGE_SIZE)%nat with (PAGE_SIZE * S k)%nat by lia.
    apply IH.
Qed.

Lemma tlvBlock_bytes (data : list Z) :
  tlvBlock data = Some <$> ([0x03; Z.of_nat (length data)] ++ data ++ [0xFE]).
Proof. unfold tlvBlock. by rewrite !fmap_app. Qed.

Lemma writeNdefData_pages_run (data : list Z) (w : World) :
  let bytes := [0x03; Z.of_nat (length data)] ++ data ++ [0xFE] in
  sent (snd (writeNdefData c data w))
    = sent w ++ take (S (resolvedPrefix (script w)))
                  (pageWrites c (pageCount bytes) 0 (Some <$> bytes))
  /\ fst (writeNdefData c data w) = chain (pageCount bytes) (script w).
Proof.
  intros bytes. unfold writeNdefData. rewrite then_eq. cbn [logger].
  set (w1 := {| script := script w; sent := sent w; log := _ |}).
  rewrite tlvBlock_bytes, length_fmap, ceil_div_pages, Nat2Z.id.
  fold bytes. fold (pageCount bytes).
  destruct (writePages_run c (pageCount bytes) 0 (Some <$> bytes) w1) as (Hs & Ho & _).
  change (Z.of_nat 0) with 0 in Hs, Ho.
  change (0 + pageCount bytes)%nat with (pageCount bytes) in Hs, Ho.
  rewrite Hs, Ho. split; reflexivity.
Qed.

(** C3: [writeNdefData(data)] forms [0x03, data.length, ...data, 0xFE], cuts
    it into pages of four with zero bytes after the end, and sends the
    write of page [k] to block address [0x04 + k], each one only after the
    one before it has resolved: the writes sent are the first of the list,
    one more than the number of requests that resolve in a row, and the
    promise ends as that chain of requests does.  For the data "AB" and two
    resolving writes the two pages are as the specification lists them. *)
Theorem writeNdefData_pages (data : list Z) (w : World) :
  let bytes := [0x03; Z.of_nat (length data)] ++ data ++ [0xFE] in
  let writes := (fun k => pageHeader c k ++ pageOf bytes k) <$> seq 0 (pageCount bytes) in
  let r := writeNdefData c data w in
  framed <$> sent (snd r)
    = (framed <$> sent w) ++ take (S (resolvedPrefix (script w))) writes
  /\ fst r = chain (pageCount bytes) (script w)
  /\ framed <$> sent (snd (writeNdefData c [65; 66]
                            {| script := [[EvFrame AckFrame;
                                           EvFrame (DataFrame DeviceToHost [x00; x90])];
                                          [EvFrame AckFrame;
                                           EvFrame (DataFrame DeviceToHost [x00; x90])]];
                               sent := []; log := [] |}))
     = [pageHeader c 0 ++ [0x03; 0x02; 65; 66]; pageHeader c 1 ++ [0xFE; 0x00; 0x00; 0x00]].
Proof.
  intros bytes writes r. subst r.
  destruct (writeNdefData_pages_run data w) as [Hs Ho]. fold bytes in Hs, Ho.
  split; [|split; [exact Ho|reflexivity]].
  rewrite Hs, fmap_app, fmap_take. f_equal. f_equal.
  apply (pageWrites_framed (pageCount bytes) 0 bytes).
Qed.

Lemma chain_not_diverged (n : nat) : forall s, chain n s <> Diverged.
Proof.
  induction n as [|n IH]; intros [|events rest]; cbn [chain]; try discriminate.
  pose proof (await_not_diverged events).
  destruct (fst (await events)); [apply IH|discriminate|discriminate|congruence].
Qed.

(** The fuel of the page loop is enough: the promise of [writeNdefData]
    settles or waits for the device, it never stands for a run cut short. *)
Lemma writeNdefData_not_diverged (data : list Z) (w : World) :
  fst (writeNdefData c data w) <> Diverged.
Proof.
  destruct (writeNdefData_pages_run data w) as [_ ->]. apply chain_not_diverged.
Qed.

End PageFacts.

(** ** emulateSetData *)

Section EmulateFacts.

Variable c : Constants.

Lemma emulateSetData_writePages_eq (fuel : nat) :
  forall (totalBlocks blockNum : Z) (block : JsArray),
    emulateSetData_writePages c fuel totalBlocks blockNum block
    = writePages c fuel totalBlocks blockNum block.
Proof.
  induction fuel as [|fuel IH]; intros totalBlocks blockNum block; [reflexivity|].
  cbn [emulateSetData_writePages writePages].
  destruct (blockNum <? totalBlocks); [|reflexivity].
  unfold splice0. rewrite IH. reflexivity.
Qed.

(** C10: on every input and in every world, [emulateSetData] sends the
    command buffers that [writeNdefData] sends, in the same order, uses up
    the same replies, and its promise ends in the same way. *)
Theorem emulateSetData_same_as_writeNdefData (data : list Z) (w : World) :
  sent (snd (emulateSetData c data w)) = sent (snd (writeNdefData c data w))
  /\ fst (emulateSetData c data w) = fst (writeNdefData c data w)
  /\ script (snd (emulateSetData c data w)) = script (snd (writeNdefData c data w)).
Proof.
  unfold emulateSetData, writeNdefData. rewrite !then_eq. cbn [logger].
  rewrite emulateSetData_writePages_eq.
  set (block := tlvBlock data).
  rewrite ceil_div_pages, Nat2Z.id.
  set (n := ((length block + 3) / 4)%nat).
  set (w1 := {| script := script w; sent := sent w;
                log := log w ++ [(info, "Writing data... bon code"%string)] |}).
  set (w2 := {| script := script w; sent := sent w;
                log := log w ++ [(info, "Writing data..."%string)] |}).
  destruct (writePages_run c n 0 block w1) as (Hs1 & Ho1 & Hsc1).
  destruct (writePages_run c n 0 block w2) as (Hs2 & Ho2 & Hsc2).
  change (Z.of_nat 0) with 0 in *. change (0 + n)%nat with n in *.
  rewrite Hs1, Ho1, Hsc1, Hs2, Ho2, Hsc2. repeat split.
Qed.

End EmulateFacts.

(** ** The listeners of sendCommand *)

Lemma removeListener_absent (id : nat) (l : list nat) : id ∉ l -> removeListener id l = l.
Proof.
  induction l as [|x rest IH]; intros Hid; [reflexivity|].
  cbn [removeListener]. apply not_elem_of_cons in Hid as [Hne Hrest].
  destruct (decide (x = id)); [congruence|]. by rewrite IH.
Qed.

Lemma elem_of_removeListener (id x : nat) (l : list nat) :
  NoDup l -> x ∈ removeListener id l <-> x ∈ l /\ x <> id.
Proof.
  induction 1 as [|y rest Hy Hrest IH].
  - cbn. split; [intros Hx|intros [Hx _]]; by apply elem_of_nil in Hx.
  - cbn [removeListener]. destruct (decide (y = id)) as [->|Hne].
    + destruct (decide (id ∈ rest)); [contradiction|].
      rewrite elem_of_cons. split.
      * intros Hx. split; [by right|]. intros ->. contradiction.
      * intros [[->|Hx] Hne]; [congruence|assumption].
    + rewrite !elem_of_cons, IH. split.
      * intros [->|[Hx Hxid]]; [split; [by left|assumption] | split; [by right|assumption]].
      * intros [[->|Hx] Hxid]; [by left | right; by split].
Qed.

Lemma NoDup_removeListener (id : nat) (l : list nat) : NoDup l -> NoDup (removeListener id l).
Proof.
  induction 1 as [|y rest Hy Hrest IH]; [constructor|].
  cbn [removeListener]. destruct (decide (y = id)) as [->|Hne].
  - destruct (decide (id ∈ rest)); [contradiction|assumption].
  - constructor; [|assumption]. rewrite elem_of_removeListener by assumption. tauto.
Qed.

Lemma length_removeListener (id : nat) (l : list nat) :
  id ∈ l -> S (length (removeListener id l)) = length l.
Proof.
  induction l as [|y rest IH]; intros Hid; [by apply elem_of_nil in Hid|].
  cbn [removeListener]. destruct (decide (y = id)) as [->|Hne].
  - destruct (decide (id ∈ rest)) as [Hin|]; [|reflexivity]. cbn [length]. by rewrite IH.
  - apply elem_of_cons in Hid as [->|Hin]; [congruence|]. cbn [length]. by rewrite IH.
Qed.

Lemma removed_snoc (l : list nat) (id x : nat) :
  count_occ Nat.eq_dec (l ++ [x]) id
  = (count_occ Nat.eq_dec l id + if decide (x = id) then 1 else 0)%nat.
Proof.
  rewrite count_occ_app. cbn [count_occ].
  destruct (Nat.eq_dec x id), (decide (x = id)); congruence.
Qed.

Lemma Inv_PN532 : Inv PN532.
Proof.
  split; cbn.
  - constructor.
  - constructor.
  - reflexivity.
  - intros id Hid. by apply elem_of_nil in Hid.
  - intros id _ Hlt. lia.
  - intros id _. split; reflexivity.
  - reflexivity.
Qed.

Lemma Inv_note (entries : list LogEntry) (pn : Driver) : Inv pn -> Inv (note entries pn).
Proof. intros [? ? ? ? ? ? ?]. split; assumption. Qed.

Lemma Inv_setPolling (p : Polling) (pn : Driver) : Inv pn -> Inv (setPolling p pn).
Proof. intros [? ? ? ? ? ? ?]. split; assumption. Qed.

Lemma Inv_register (commandBuffer : JsArray) (pn : Driver) :
  Inv pn -> Inv (register commandBuffer pn).
Proof.
  intros [Hf He Hboth Hpend Hsett Hfut Hsize].
  assert (Hnew : requests pn ∉ frameListeners pn).
  { intros Hin. apply Hpend in Hin. lia. }
  assert (Hnew' : requests pn ∉ errorListeners pn) by (by rewrite <- Hboth).
  split; cbn [register frameListeners errorListeners promises removals requests]; unfold removed;
    cbn [register removals].
  - apply NoDup_app. repeat split; [assumption| |apply NoDup_singleton].
    intros x Hx Hx'. apply list_elem_of_singleton in Hx'. by subst.
  - apply NoDup_app. repeat split; [assumption| |apply NoDup_singleton].
    intros x Hx Hx'. apply list_elem_of_singleton in Hx'. by subst.
  - intros id. rewrite !elem_of_app, Hboth. tauto.
  - intros id Hid. apply elem_of_app in Hid as [Hid|Hid].
    + destruct (Hpend id Hid) as (? & ? & ?). repeat split; [assumption|assumption|lia].
    + apply list_elem_of_singleton in Hid. subst id.
      destruct (Hfut (requests pn)) as [? ?]; [lia|]. repeat split; [assumption|assumption|lia].
  - intros id Hid Hlt. rewrite elem_of_app, list_elem_of_singleton in Hid.
    apply Hsett; [tauto|]. destruct (decide (id = requests pn)); [tauto|lia].
  - intros id Hle. apply Hfut. lia.
  - rewrite length_app. cbn [length]. lia.
Qed.

Lemma Inv_settle (id : nat) (entries : list LogEntry) (o : Outcome Frame) (pn : Driver) :
  Inv pn -> id ∈ frameListeners pn -> Inv (settle id entries o pn).
Proof.
  intros [Hf He Hboth Hpend Hsett Hfut Hsize] Hid.
  destruct (Hpend id Hid) as (Hnone & Hzero & Hlt).
  unfold settle, settlePromise, removeListeners, note.
  cbn [frameListeners errorListeners promises removals requests].
  rewrite bool_decide_eq_true_2 by assumption.
  split; cbn [frameListeners errorListeners promises removals requests]; unfold removed in *;
    cbn [removals].
  - by apply NoDup_removeListener.
  - by apply NoDup_removeListener.
  - intros x. rewrite !elem_of_removeListener by assumption. by rewrite Hboth.
  - intros x Hx. apply elem_of_removeListener in Hx as [Hx Hne]; [|assumption].
    destruct (Hpend x Hx) as (? & ? & ?).
    rewrite lookup_insert_ne by congruence. rewrite removed_snoc.
    destruct (decide (id = x)); [congruence|]. repeat split; [assumption|lia|assumption].
  - intros x Hx Hxlt. rewrite removed_snoc.
    destruct (decide (id = x)) as [<-|Hne].
    + rewrite lookup_insert_eq. split; [eauto|lia].
    + rewrite lookup_insert_ne by assumption.
      rewrite elem_of_removeListener in Hx by assumption.
      destruct (Hsett x) as [? ?]; [|assumption|split; [assumption|lia]].
      intros Hin. apply Hx. split; [assumption|congruence].
  - intros x Hle. destruct (Hfut x Hle) as [? ?].
    rewrite lookup_insert_ne by lia. rewrite removed_snoc.
    destruct (decide (id = x)); [lia|]. split; [assumption|lia].
  - pose proof (length_removeListener id _ Hid).
    rewrite map_size_insert_None by assumption. lia.
Qed.

Lemma frameListeners_settle (id x : nat) entries o (pn : Driver) :
  Inv pn -> x ∈ frameListeners pn -> x <> id -> x ∈ frameListeners (settle id entries o pn).
Proof.
  intros HI Hx Hne. unfold settle, settlePromise, removeListeners, note. cbn [frameListeners].
  apply elem_of_removeListener; [apply HI|]. split; assumption.
Qed.

Lemma Inv_deliveries (ev : Event) (listeners : list nat) :
  forall pn : Driver,
    Inv pn -> NoDup listeners -> (forall id, id ∈ listeners -> id ∈ frameListeners pn) ->
    Inv (foldl (deliver ev) pn listeners).
Proof.
  induction listeners as [|id rest IH]; intros pn HI Hnd Hsub; [exact HI|].
  cbn [foldl]. apply NoDup_cons in Hnd as [Hid Hnd].
  apply IH; [| assumption |]; unfold deliver; destruct (react ev) as [entries|entries o].
  - by apply Inv_note.
  - apply Inv_settle; [assumption|]. apply Hsub. left.
  - intros x Hx. apply (Hsub x). by right.
  - intros x Hx. apply frameListeners_settle; [assumption| |congruence].
    apply Hsub. by right.
Qed.

Lemma Inv_emit (ev : Event) (pn : Driver) : Inv pn -> Inv (emit ev pn).
Proof.
  intros HI. unfold emit. apply Inv_deliveries; [assumption| |]; destruct ev.
  - apply HI.
  - apply HI.
  - auto.
  - intros id. apply HI.
Qed.

Lemma settlement_react (ev : Event) (o : Outcome Frame) :
  settlement ev = Some o -> exists entries, react ev = Settle entries o.
Proof.
  destruct ev as [[| |d body]|e]; cbn; intros H; inversion H; eauto.
Qed.

Lemma promises_settle_pending (id : nat) entries o (pn : Driver) :
  promises pn !! id = None ->
  promises (settle id entries o pn) = <[id := o]> (promises pn).
Proof.
  intros Hnone. unfold settle, settlePromise, removeListeners, note. cbn [promises].
  by rewrite bool_decide_eq_true_2.
Qed.

Lemma deliveries_settle (ev : Event) entries o (listeners : list nat) :
  react ev = Settle entries o ->
  forall pn : Driver,
    Inv pn -> NoDup listeners -> (forall id, id ∈ listeners -> id ∈ frameListeners pn) ->
    let pn' := foldl (deliver ev) pn listeners in
    Inv pn'
    /\ (forall x, x ∈ frameListeners pn' <-> x ∈ frameListeners pn /\ x ∉ listeners)
    /\ (forall id, promises pn' !! id
                   = if decide (id ∈ listeners) then Some o else promises pn !! id).
Proof.
  intros Hreact. induction listeners as [|id rest IH]; intros pn HI Hnd Hsub.
  - cbn. split; [assumption|split].
    + intros x. split; [intros Hx; split; [exact Hx|apply not_elem_of_nil] | tauto].
    + intros i. destruct (decide (i ∈ [])) as [Hin|]; [by apply elem_of_nil in Hin|reflexivity].
  - apply NoDup_cons in Hnd as [Hid Hnd]. cbn [foldl].
    assert (Hpending : id ∈ frameListeners pn) by (apply Hsub; left).
    assert (Hdeliver : deliver ev pn id = settle id entries o pn)
      by (unfold deliver; by rewrite Hreact).
    rewrite Hdeliver.
    destruct (IH (settle id entries o pn)) as (HI' & Hfl & Hpr).
    + by apply Inv_settle.
    + assumption.
    + intros x Hx. apply frameListeners_settle; [assumption|apply Hsub; by right|congruence].
    + split; [exact HI'|split].
      * intros x. rewrite Hfl. unfold settle, settlePromise, removeListeners, note.
        cbn [frameListeners]. rewrite elem_of_removeListener by apply HI.
        rewrite elem_of_cons. intuition congruence.
      * intros i. rewrite Hpr.
        rewrite promises_settle_pending by (by apply (inv_pending pn HI)).
        destruct (decide (i ∈ rest)) as [Hin|Hnin].
        -- rewrite decide_True; [reflexivity|by right].
        -- destruct (decide (i = id)) as [->|Hne].
           ++ rewrite lookup_insert_eq, decide_True; [reflexivity|left].
           ++ rewrite lookup_insert_ne by congruence.
              rewrite decide_False; [reflexivity|].
              rewrite elem_of_cons. tauto.
Qed.

Lemma pending_iff (pn : Driver) (id : nat) :
  Inv pn -> id ∈ frameListeners pn <-> (id < requests pn)%nat /\ promises pn !! id = None.
Proof.
  intros HI. split.
  - intros Hid. destruct (inv_pending pn HI id Hid) as (? & ? & ?). tauto.
  - intros [Hlt Hnone]. destruct (decide (id ∈ frameListeners pn)) as [|Hnot]; [assumption|].
    destruct (inv_settled pn HI id Hnot Hlt) as [[o Ho] _]. congruence.
Qed.

Lemma deliveries_written (ev : Event) (listeners : list nat) :
  forall pn : Driver,
    written (foldl (deliver ev) pn listeners) = written pn
    /\ requests (foldl (deliver ev) pn listeners) = requests pn.
Proof.
  induction listeners as [|id rest IH]; intros pn; [done|].
  cbn [foldl]. destruct (IH (deliver ev pn id)) as [-> ->].
  unfold deliver. by destruct (react ev).
Qed.

Lemma deliveries_promises_kept (ev : Event) (listeners : list nat) (id : nat)
    (o : Outcome Frame) :
  forall pn : Driver,
    promises pn !! id = Some o -> promises (foldl (deliver ev) pn listeners) !! id = Some o.
Proof.
  induction listeners as [|x rest IH]; intros pn Hsome; [exact Hsome|].
  cbn [foldl]. apply IH. unfold deliver. destruct (react ev) as [entries|entries o'].
  - exact Hsome.
  - unfold settle, settlePromise, removeListeners, note. cbn [promises].
    destruct (bool_decide (promises pn !! x = None)) eqn:Hfirst; [|exact Hsome].
    apply bool_decide_eq_true_1 in Hfirst.
    rewrite lookup_insert_ne; [exact Hsome|congruence].
Qed.

Lemma deliveries_stay (ev : Event) (entries : list LogEntry) (listeners : list nat) :
  react ev = Stay entries ->
  forall pn : Driver,
    frameListeners (foldl (deliver ev) pn listeners) = frameListeners pn
    /\ errorListeners (foldl (deliver ev) pn listeners) = errorListeners pn
    /\ removals (foldl (deliver ev) pn listeners) = removals pn
    /\ promises (foldl (deliver ev) pn listeners) = promises pn.
Proof.
  intros Hstay. induction listeners as [|id rest IH]; intros pn; [done|].
  cbn [foldl]. destruct (IH (deliver ev pn id)) as (-> & -> & -> & ->).
  unfold deliver. by rewrite Hstay.
Qed.

Lemma unsettling_stays (ev : Event) : unsettling ev -> exists entries, react ev = Stay entries.
Proof. intros [-> | ->]; cbn; eauto. Qed.

Lemma settled_removed (pn : Driver) (id : nat) :
  Inv pn -> is_Some (promises pn !! id) ->
  (id ∉ frameListeners pn) /\ (id ∉ errorListeners pn) /\ removed pn id = 1%nat.
Proof.
  intros HI [o Ho].
  assert (Hnot : id ∉ frameListeners pn).
  { intros Hin. destruct (inv_pending pn HI id Hin) as (Hnone & _). congruence. }
  assert (Hlt : (id < requests pn)%nat).
  { destruct (Nat.lt_ge_cases id (requests pn)) as [|Hge]; [assumption|].
    destruct (inv_future pn HI id Hge) as [Hnone _]. congruence. }
  split; [assumption|split].
  - by rewrite <- (inv_both pn HI).
  - apply (inv_settled pn HI id Hnot Hlt).
Qed.

Section EngineFacts.

Variable c : Constants.

Lemma Inv_poll (pn : Driver) : Inv pn -> Inv (poll c pn).
Proof. intros HI. unfold poll. by apply Inv_setPolling, Inv_register, Inv_note. Qed.

Lemma Inv_step (pn : Driver) (op : Op) : Inv pn -> Inv (step c pn op).
Proof.
  intros HI. destruct op as [commandBuffer|ev| |]; cbn [step].
  - by apply Inv_register.
  - by apply Inv_emit.
  - unfold onTag. by apply Inv_poll, Inv_setPolling.
  - unfold timerFires. destruct (timers (polling pn)); [assumption|].
    by apply Inv_poll, Inv_setPolling.
Qed.

Lemma Inv_run (ops : list Op) : Inv (run c ops).
Proof.
  unfold run. induction ops as [|op ops IH] using rev_ind; [exact Inv_PN532|].
  rewrite foldl_app. cbn [foldl]. by apply Inv_step.
Qed.

(** In every state the driver can reach, [removeListeners()] has run once
    for each request whose promise is settled and not at all for the
    others, and the listeners on the frame emitter are those of the
    requests still pending, one ['frame'] and one ['error'] listener each. *)
Lemma listeners_of_reachable (ops : list Op) (id : nat) :
  let pn := run c ops in
  removed pn id = match promises pn !! id with Some _ => 1%nat | None => O end
  /\ (id ∈ frameListeners pn <-> (id < requests pn)%nat /\ promises pn !! id = None)
  /\ (id ∈ errorListeners pn <-> (id < requests pn)%nat /\ promises pn !! id = None)
  /\ NoDup (frameListeners pn) /\ NoDup (errorListeners pn)
  /\ (length (frameListeners pn) + size (promises pn))%nat = requests pn
  /\ (length (errorListeners pn) + size (promises pn))%nat = requests pn.
Proof.
  intros pn. destruct (Inv_run ops : Inv pn) as [Hf He Hboth Hpend Hsett Hfut Hsize].
  assert (Hframe : id ∈ frameListeners pn <-> (id < requests pn)%nat /\ promises pn !! id = None).
  { split.
    - intros Hid. destruct (Hpend id Hid) as (? & ? & ?). tauto.
    - intros [Hlt Hnone]. destruct (decide (id ∈ frameListeners pn)) as [|Hnot]; [assumption|].
      destruct (Hsett id Hnot Hlt) as [[o Ho] _]. congruence. }
  assert (Hlen : length (errorListeners pn) = length (frameListeners pn)).
  { apply Permutation_length, NoDup_Permutation; [assumption|assumption|].
    intros x. symmetry. apply Hboth. }
  split; [|split; [assumption|split; [|repeat split; try assumption; lia]]].
  - destruct (decide (id ∈ frameListeners pn)) as [Hid|Hnot].
    + destruct (Hpend id Hid) as (-> & ? & ?). assumption.
    + destruct (Nat.lt_ge_cases id (requests pn)) as [Hlt|Hge].
      * destruct (Hsett id Hnot Hlt) as [[o ->] ?]. assumption.
      * destruct (Hfut id Hge) as [-> ?]. assumption.
  - rewrite <- Hboth. exact Hframe.
Qed.

Lemma settling_event_run
    (ops : list Op) (ev : Event) (o : Outcome Frame) (id : nat) :
  settlement ev = Some o ->
  let pn := run c ops in
  let pn' := run c (ops ++ [Emit ev]) in
  frameListeners pn' = [] /\ errorListeners pn' = []
  /\ promises pn' !! id
     = match promises pn !! id with
       | Some kept => Some kept
       | None => if decide (id < requests pn)%nat then Some o else None
       end.
Proof.
  intros Hsettles pn pn'.
  destruct (settlement_react ev o Hsettles) as [entries Hreact].
  pose proof (Inv_run ops : Inv pn) as HI.
  assert (Hrun : pn' = emit ev pn) by (subst pn pn'; unfold run; by rewrite foldl_app).
  set (listeners := match ev with
                    | EvFrame _ => frameListeners pn
                    | EvError _ => errorListeners pn
                    end).
  assert (Hsame : forall x, x ∈ listeners <-> x ∈ frameListeners pn).
  { intros x. unfold listeners. destruct ev; [reflexivity|]. symmetry. apply HI. }
  assert (Hnd : NoDup listeners) by (unfold listeners; destruct ev; apply HI).
  destruct (deliveries_settle ev entries o listeners Hreact pn HI Hnd) as (HI' & Hfl & Hpr).
  { intros x. apply Hsame. }
  change (foldl (deliver ev) pn listeners) with (emit ev pn) in HI', Hfl, Hpr.
  rewrite <- Hrun in HI', Hfl, Hpr.
  assert (Hempty : frameListeners pn' = []).
  { apply elem_of_nil_inv. intros x Hx. apply Hfl in Hx as [Hx Hnot]. apply Hnot, Hsame, Hx. }
  split; [exact Hempty|split].
  - apply elem_of_nil_inv. intros x Hx. apply (inv_both pn' HI') in Hx.
    rewrite Hempty in Hx. by apply elem_of_nil in Hx.
  - rewrite Hpr.
    destruct (pending_iff pn id HI) as [Hto Hfrom].
    destruct (decide (id ∈ listeners)) as [Hin|Hnin].
    + apply Hsame, Hto in Hin as [Hlt ->]. by rewrite decide_True.
    + destruct (promises pn !! id) as [kept|] eqn:Hp; [reflexivity|].
      destruct (decide (id < requests pn)%nat) as [Hlt|]; [|reflexivity].
      exfalso. apply Hnin, Hsame, Hfrom. by split.
Qed.

Lemma settled_kept (ops later : list Op) (id : nat) (o : Outcome Frame) :
  promises (run c ops) !! id = Some o ->
  promises (run c (ops ++ later)) !! id = Some o.
Proof.
  intros Hsome. unfold run in *. rewrite foldl_app.
  revert Hsome. generalize (foldl (step c) PN532 ops). clear ops.
  induction later as [|op later IH]; intros pn Hsome; [exact Hsome|].
  cbn [foldl]. apply IH. destruct op as [commandBuffer|ev| |]; cbn [step].
  - exact Hsome.
  - unfold emit. by apply deliveries_promises_kept.
  - exact Hsome.
  - unfold timerFires. by destruct (timers (polling pn)).
Qed.

(** C8: the two listeners that a [sendCommand] call registers are removed
    exactly once, on either way the request completes.  Take a request
    that is outstanding (made, and its promise not settled) in a state the
    driver can reach: its ['frame'] listener and its ['error'] listener
    are registered, once each, and [removeListeners()] has not run for it;
    an Ack or a Nack leaves all of that as it is.  When a data frame or an
    error is emitted, [removeListeners()] runs once for the request, no
    listener is left on the frame emitter, and the promise holds the frame
    or the error.  Whatever comes later -- calls, frames, errors,
    subscriptions, timers -- [removeListeners()] never runs for the
    request again and its listeners stay removed; in that later state
    every request has removed its listeners once if it is settled and not
    at all if it is pending. *)
Theorem removeListeners_once_per_request
    (ops later : list Op) (ev : Event) (o : Outcome Frame) (id : nat) :
  settlement ev = Some o ->
  (id < requests (run c ops))%nat ->
  promises (run c ops) !! id = None ->
  let pn := run c ops in
  let pn' := run c (ops ++ [Emit ev]) in
  let pn'' := run c (ops ++ Emit ev :: later) in
  (id ∈ frameListeners pn /\ id ∈ errorListeners pn
   /\ NoDup (frameListeners pn) /\ NoDup (errorListeners pn) /\ removed pn id = O)
  /\ (forall quiet, unsettling quiet ->
       let pn0 := run c (ops ++ [Emit quiet]) in
       id ∈ frameListeners pn0 /\ id ∈ errorListeners pn0
       /\ removed pn0 id = O /\ promises pn0 !! id = None)
  /\ (removed pn' id = 1%nat /\ frameListeners pn' = [] /\ errorListeners pn' = []
      /\ promises pn' !! id = Some o)
  /\ (removed pn'' id = 1%nat /\ (id ∉ frameListeners pn'') /\ (id ∉ errorListeners pn'')
      /\ promises pn'' !! id = Some o)
  /\ (forall r, removed pn'' r
                = match promises pn'' !! r with Some _ => 1%nat | None => O end).
Proof.
  intros Hsettles Hlt Hnone pn pn' pn''.
  pose proof (Inv_run ops : Inv pn) as HI.
  pose proof (Inv_run (ops ++ [Emit ev]) : Inv pn') as HI'.
  pose proof (Inv_run (ops ++ Emit ev :: later) : Inv pn'') as HI''.
  assert (Hpending : id ∈ frameListeners pn) by (by apply pending_iff).
  destruct (inv_pending pn HI id Hpending) as (_ & Hzero & _).
  destruct (settling_event_run ops ev o id Hsettles) as (Hf & He & Hp).
  cbn zeta in Hf, He, Hp. rewrite Hnone, decide_True in Hp by assumption.
  change (frameListeners pn' = []) in Hf. change (errorListeners pn' = []) in He.
  change (promises pn' !! id = Some o) in Hp.
  assert (Hkept : promises pn'' !! id = Some o).
  { subst pn''. rewrite (cons_middle (Emit ev)), app_assoc. by apply settled_kept. }
  split; [|split; [|split; [|split]]].
  - repeat split; [assumption|by apply (inv_both pn HI)|apply HI|apply HI|assumption].
  - intros quiet Hquiet pn0.
    assert (Hsame : frameListeners pn0 = frameListeners pn
                    /\ errorListeners pn0 = errorListeners pn
                    /\ removals pn0 = removals pn /\ promises pn0 = promises pn).
    { subst pn0. unfold run. rewrite foldl_app. cbn [foldl step]. fold (run c ops). fold pn.
      destruct (unsettling_stays quiet Hquiet) as [entries Hstay].
      unfold emit. apply (deliveries_stay quiet entries _ Hstay). }
    destruct Hsame as (Hf0 & He0 & Hr0 & Hp0). unfold removed.
    rewrite Hf0, He0, Hr0, Hp0.
    repeat split; [assumption|by apply (inv_both pn HI)|assumption|assumption].
  - destruct (settled_removed pn' id HI') as (_ & _ & Hone); [by rewrite Hp|].
    repeat split; assumption.
  - destruct (settled_removed pn'' id HI'') as (Hnf & Hne & Hone); [by rewrite Hkept|].
    repeat split; assumption.
  - intros r. by destruct (listeners_of_reachable (ops ++ Emit ev :: later) r) as [Hcount _].
Qed.

End EngineFacts.

Lemma removeListeners_once_per_request_witness :
  let ops := [SendCommand [Some 2]; Emit (EvFrame AckFrame); SendCommand [Some 4]] in
  let later := [SendCommand [Some 6]; Emit (EvFrame (DataFrame DeviceToHost [x00]));
                Emit (EvError (EmitterError 2))] in
  removed (run c0 ops) 1 = O
  /\ removed (run c0 (ops ++ [Emit (EvError (EmitterError 1))])) 1 = 1%nat
  /\ removed (run c0 (ops ++ Emit (EvError (EmitterError 1)) :: later)) 1 = 1%nat.
Proof.
  intros ops later.
  destruct (removeListeners_once_per_request c0 ops later (EvError (EmitterError 1))
              (Rejected (EmitterError 1)) 1)
    as ((_ & _ & _ & _ & Hbefore) & _ & (Hafter & _) & (Hlater & _) & _).
  - reflexivity.
  - vm_compute. lia.
  - reflexivity.
  - repeat split; assumption.
Defined.

(** ** The emitter model against the promise model *)

Lemma emit_no_listener (ev : Event) (pn : Driver) :
  frameListeners pn = [] -> errorListeners pn = [] -> emit ev pn = pn.
Proof. intros Hf He. unfold emit. destruct ev; by rewrite ?Hf, ?He. Qed.

Section EngineAgrees.

Variable c : Constants.

Lemma emits_no_listener (events : list Event) (pn : Driver) :
  frameListeners pn = [] -> errorListeners pn = [] ->
  foldl (step c) pn (Emit <$> events) = pn.
Proof.
  intros Hf He. induction events as [|ev rest IH]; [reflexivity|].
  cbn [fmap list_fmap foldl step]. by rewrite emit_no_listener.
Qed.

Lemma oneRequest_emits (commandBuffer : JsArray) (events : list Event) :
  forall entries : list LogEntry,
    let pn := foldl (step c) (oneRequest commandBuffer entries) (Emit <$> events) in
    promises pn !! O = match fst (await events) with
                       | Pending => None
                       | o => Some o
                       end
    /\ journal pn = entries ++ snd (await events)
    /\ written pn = [commandBuffer].
Proof.
  induction events as [|ev rest IH]; intros entries pn; subst pn.
  - cbn. by rewrite app_nil_r.
  - cbn [fmap list_fmap foldl step await].
    assert (Hemit : emit ev (oneRequest commandBuffer entries)
                    = deliver ev (oneRequest commandBuffer entries) O) by (by destruct ev).
    rewrite Hemit. unfold deliver. destruct (react ev) as [more|more o] eqn:Hreact.
    + change (note more (oneRequest commandBuffer entries))
        with (oneRequest commandBuffer (entries ++ more)).
      destruct (IH (entries ++ more)) as (Hp & Hj & Hw).
      rewrite Hp, Hj, Hw. destruct (await rest) as [o later]. cbn [fst snd].
      by rewrite app_assoc.
    + rewrite emits_no_listener by reflexivity. cbn [fst snd].
      split; [|split; reflexivity].
      unfold settle, settlePromise, removeListeners, note. cbn [promises oneRequest].
      rewrite bool_decide_eq_true_2 by apply lookup_empty.
      rewrite lookup_insert_eq.
      destruct ev as [[| |d body]|e]; cbn in Hreact; inversion Hreact; reflexivity.
Qed.

(** One [sendCommand] followed by the events: the promise of the request,
    the log and the command written are those of [sendCommand] in the
    promise model. *)
Lemma engine_agrees_with_sendCommand (commandBuffer : JsArray) (events : list Event) :
  let pn := run c (SendCommand commandBuffer :: (Emit <$> events)) in
  let r := sendCommand commandBuffer {| script := [events]; sent := []; log := [] |} in
  promises pn !! O = match fst r with Pending => None | o => Some o end
  /\ journal pn = log (snd r)
  /\ written pn = sent (snd r).
Proof.
  intros pn r.
  destruct (oneRequest_emits commandBuffer events []) as (Hp & Hj & Hw).
  subst pn r. unfold run. cbn [foldl step].
  change (register commandBuffer PN532) with (oneRequest commandBuffer []).
  rewrite Hp, Hj, Hw. unfold sendCommand. cbn [script].
  destruct (await events) as [o entries]. repeat split.
Qed.

(** The two ways a request completes. *)
Example request_resolved :
  let pn := run c [SendCommand [Some 2]; Emit (EvFrame AckFrame);
                   Emit (EvFrame (DataFrame DeviceToHost [x32; x01; x06; x07]))] in
  promises pn !! O = Some (Resolved (DataFrame DeviceToHost [x32; x01; x06; x07]))
  /\ removals pn = [O] /\ frameListeners pn = [] /\ errorListeners pn = [].
Proof. repeat split. Qed.

Example request_rejected :
  let pn := run c [SendCommand [Some 2]; Emit (EvFrame AckFrame);
                   Emit (EvError (EmitterError 1))] in
  promises pn !! O = Some (Rejected (EmitterError 1))
  /\ removals pn = [O] /\ frameListeners pn = [] /\ errorListeners pn = [].
Proof. repeat split. Qed.

(** ** Polling for tags *)

Lemma subscriptions_poll (n : nat) :
  let pn := run c (replicate n OnTag) in
  loops (polling pn) = n
  /\ written pn = replicate n (scanTag_command c)
  /\ frameListeners pn = seq 0 n
  /\ requests pn = n
  /\ promises pn = ∅.
Proof.
  induction n as [|n IH]; [by repeat split|].
  cbn zeta in *. unfold run in *. rewrite replicate_S_end, foldl_app. cbn [foldl step].
  destruct IH as (Hl & Hw & Hf & Hr & Hp).
  unfold onTag, poll.
  cbn [setPolling note register polling loops written frameListeners requests promises].
  rewrite Hl, Hw, Hf, Hr, Hp, replicate_S_end, seq_S. repeat split.
Qed.

(** C7 on the code: two subscriptions to ['tag'] start the polling closure
    twice; two scan commands are written before anything is received, two
    requests wait on the frame emitter, and one response resolves both, so
    that ['tag'] is emitted twice and two timers are set. *)
Theorem second_tag_listener_starts_second_poll :
  let pn := run c [OnTag; OnTag] in
  let response := Emit (EvFrame (DataFrame DeviceToHost [x00])) in
  let pn' := run c [OnTag; OnTag; Emit (EvFrame AckFrame); response] in
  loops (polling pn) = 2%nat
  /\ written pn = [scanTag_command c; scanTag_command c]
  /\ frameListeners pn = [0; 1]%nat
  /\ promises pn = ∅
  /\ tagEvents (polling pn') = [None; None]
  /\ timers (polling pn') = 2%nat.
Proof. repeat split. Qed.

End EngineAgrees.

(** ** readNdefData with additional blocks *)

Section RetrieveFacts.

Variable c : Constants.

Lemma retrieveBlock_step (n k : nat) (ndefData : Buffer) :
  promiseOf (retrieveBlock c (S n) (Some (Z.of_nat (k + S n) - 1)) (Z.of_nat k) ndefData)
    ndefData =
    then_ (readBlock c (Some {| tagNumber := None;
                                blockAddress := Some (4 * (Z.of_nat k + 1)) |}))
      (fun block =>
         promiseOf (retrieveBlock c n (Some (Z.of_nat (S k + n) - 1)) (Z.of_nat (S k))
                      (ndefData ++ block)) (ndefData ++ block)).
Proof.
  cbn [retrieveBlock jsLe].
  destruct (Z.leb_spec (Z.of_nat k) (Z.of_nat (k + S n) - 1)) as [_|]; [|lia].
  cbn [promiseOf].
  replace (Z.of_nat k + 1) with (Z.of_nat (S k)) by lia.
  replace (k + S n)%nat with (S k + n)%nat by lia.
  reflexivity.
Qed.

Lemma retrieveBlock_done (k : nat) (ndefData : Buffer) :
  retrieveBlock c O (Some (Z.of_nat (k + O) - 1)) (Z.of_nat k) ndefData = None.
Proof.
  cbn [retrieveBlock jsLe].
  destruct (Z.leb_spec (Z.of_nat k) (Z.of_nat (k + 0) - 1)) as [|_]; [lia|reflexivity].
Qed.

Lemma retrieveBlock_run (n : nat) :
  forall (k : nat) (ndefData : Buffer) (w : World),
    let r := promiseOf (retrieveBlock c n (Some (Z.of_nat (k + n) - 1)) (Z.of_nat k) ndefData)
               ndefData w in
    sent (snd r) = sent w ++ take (S (resolvedPrefix (script w))) (blockReads c n k)
    /\ fst r = gather n (script w) ndefData
    /\ script (snd r) = drop (Nat.min n (S (resolvedPrefix (script w)))) (script w).
Proof.
  induction n as [|n IH]; intros k ndefData w r; subst r.
  - rewrite retrieveBlock_done. cbn. rewrite app_nil_r. by destruct (script w).
  - rewrite retrieveBlock_step.
    set (options := Some {| tagNumber := None; blockAddress := Some (4 * (Z.of_nat k + 1)) |}).
    rewrite (then_eq (readBlock c options) _ w).
    pose proof (readBlock_outcome c options w) as Ho.
    pose proof (readBlock_sent c options w) as Hs.
    pose proof (readBlock_script c options w) as Hsc.
    destruct (readBlock c options w) as [o w2]. cbn [fst snd] in Ho, Hs, Hsc.
    unfold nextOutcome in Ho. unfold blockReads. cbn [seq fmap list_fmap gather].
    fold options. fold (blockReads c n (S k)).
    destruct (script w) as [|events rest] eqn:Hscript.
    + cbn in Ho. subst o. cbn [fst snd]. rewrite Hs, Hsc. by rewrite Nat.min_comm.
    + cbn [tail] in Hsc. cbn [resolvedPrefix].
      destruct (fst (await events)) as [frame|e| |] eqn:Hawait; cbn in Ho; subst o;
        cbn [fst snd]; try (rewrite Hs, Hsc; by rewrite Nat.min_comm).
      destruct (IH (S k) (ndefData ++ removelast (tail (getDataBody frame))) w2)
        as (IHs & IHo & IHsc).
      rewrite IHs, IHo, IHsc, Hs, Hsc. cbn [take drop Nat.min].
      by rewrite <- app_assoc.
Qed.

(** The part of C4 that the code keeps: when at least one further block is
    needed, that many blocks are read, one after the other, at the block
    addresses 8, 12, ..., and the promise resolves with the first [L] bytes
    of what was gathered; a read that fails ends the operation with
    [undefined]. *)
Lemma readNdefData_additional_blocks
    (w : World) (events : list Event) (more : list (list Event))
    (d : Direction) (body : Buffer) (L : byte) (v : Z) (m : nat) :
  script w = events :: more ->
  fst (await events) = Resolved (DataFrame d body) ->
  let block := removelast (tail body) in
  findNdefTlv block = Some (Found (Some L) (Some v)) ->
  Math_ceil_div (v + byteZ L) 16 - 1 = Z.of_nat (S m) ->
  fst (readNdefData c w) =
    match gather (S m) more (slice block v (Z.of_nat (length block))) with
    | Resolved ndefData => Resolved (Some (slice ndefData 0 (byteZ L)))
    | Rejected _ => Resolved None
    | Pending => Pending
    | Diverged => Diverged
    end
  /\ sent (snd (readNdefData c w)) =
       sent w ++ readCommand c (Some {| tagNumber := None; blockAddress := Some 4 |})
              :: take (S (resolvedPrefix more)) (blockReads c (S m) 1).
Proof.
  intros Hscript Hawait block Hscan Hblocks.
  set (options := Some {| tagNumber := None; blockAddress := Some 4 |}).
  set (w1 := entered "Reading data..." w).
  change (readNdefData c w)
    with (catch_ (then_ (readBlock c options) (readNdefData_then c))
            (fun _ => logger error "ERROR:" ;; ret None) w1).
  pose proof (readBlock_outcome c options w1) as Ho.
  pose proof (readBlock_sent c options w1) as Hs.
  pose proof (readBlock_script c options w1) as Hsc.
  unfold catch_. rewrite (then_eq (readBlock c options) _ w1).
  destruct (readBlock c options w1) as [o w2].
  cbn [fst snd] in Ho, Hs, Hsc.
  unfold nextOutcome in Ho. cbn [w1 entered script sent] in Ho, Hs, Hsc.
  rewrite Hscript in Ho, Hsc. rewrite Hawait in Ho.
  cbn [stripped getDataBody tail] in Ho, Hsc. subst o.
  fold block. unfold readNdefData_then. rewrite Hscan.
  unfold additionalBlocksOf.
  cbn [jsAdd toNum fmap option_fmap option_map toInteger default from_option id].
  rewrite Hblocks, Nat2Z.id.
  set (ndefData := slice block v (Z.of_nat (length block))).
  destruct (retrieveBlock_run (S m) 1 ndefData w2) as (IHs & IHo & _).
  replace (Z.of_nat (1 + S m) - 1) with (Z.of_nat (S m)) in * by lia.
  change (Z.of_nat 1) with 1 in *.
  destruct (retrieveBlock c (S m) (Some (Z.of_nat (S m))) 1 ndefData) as [p|] eqn:Hp.
  - cbn [promiseOf] in IHs, IHo. rewrite (then_eq p _ w2).
    destruct (p w2) as [o w3]. cbn [fst snd] in IHs, IHo.
    rewrite Hsc in IHs, IHo. rewrite <- IHo.
    destruct o as [data|e| |]; cbn; rewrite IHs, Hs, <- app_assoc; split; reflexivity.
  - exfalso. cbn [retrieveBlock jsLe] in Hp.
    destruct (Z.leb_spec 1 (Z.of_nat (S m))) as [_|]; [discriminate|lia].
Qed.

End RetrieveFacts.

Lemma readNdefData_additional_blocks_sample :
  let first := [x00; x03; x10; x41; x42; x43; x44; x45; x46; x47; x48; x49; x4a; x4b; x4c;
                x4d; x4e; x90] in
  let second := [x00; x4f; x50; xfe] ++ replicate 13 x00 ++ [x90] in
  let w := {| script := [[EvFrame AckFrame; EvFrame (DataFrame DeviceToHost first)];
                         [EvFrame AckFrame; EvFrame (DataFrame DeviceToHost second)]];
              sent := []; log := [] |} in
  fst (readNdefData c0 w)
  = Resolved (Some [x41; x42; x43; x44; x45; x46; x47; x48; x49; x4a; x4b; x4c; x4d; x4e;
                    x4f; x50])
  /\ sent (snd (readNdefData c0 w))
     = [[Some 0x40; Some 1; Some 0x30; Some 4]; [Some 0x40; Some 1; Some 0x30; Some 8]].
Proof.
  intros first second w.
  exact (readNdefData_additional_blocks c0 w _ _ DeviceToHost first x10 2 0
           eq_refl eq_refl eq_refl eq_refl).
Defined.


(** * Further properties *)

(** ** sendCommand: errors and silence *)

Lemma await_error (pre post : list Event) (e : Error) :
  Forall unsettling pre -> fst (await (pre ++ EvError e :: post)) = Rejected e.
Proof. intros Hpre. by rewrite (await_app_stay pre _ Hpre). Qed.

Lemma await_unsettled (events : list Event) :
  Forall unsettling events -> fst (await events) = Pending.
Proof.
  intros Hevents. rewrite <- (app_nil_r events). by rewrite (await_app_stay events [] Hevents).
Qed.

Lemma await_error_log (pre post : list Event) (e : Error) :
  Forall unsettling pre ->
  exists entries,
    snd (await (pre ++ EvError e :: post))
    = entries ++ [(error, "Error received for sendCommand"%string)].
Proof.
  induction 1 as [|ev pre [-> | ->] _ [entries IH]].
  - by exists [].
  - exists ((info, "Command Acknowledged"%string) :: entries).
    cbn [app await react onFrame]. destruct (await (pre ++ _)) as [o later].
    cbn [snd] in *. by rewrite IH.
  - exists entries. cbn [app await react onFrame]. destruct (await (pre ++ _)) as [o later].
    cbn [snd] in *. by rewrite IH.
Qed.

(** X1: an error emitted while a request is outstanding, before any data
    frame, rejects the request with that very error, however many Ack or
    Nack frames came first; the command has been written by then. *)
Theorem sendCommand_rejects_on_error
    (commandBuffer : JsArray) (w : World) (pre post : list Event)
    (more : list (list Event)) (e : Error) :
  script w = (pre ++ EvError e :: post) :: more ->
  Forall unsettling pre ->
  fst (sendCommand commandBuffer w) = Rejected e
  /\ sent (snd (sendCommand commandBuffer w)) = sent w ++ [commandBuffer]
  /\ last (log (snd (sendCommand commandBuffer w)))
     = Some (error, "Error received for sendCommand"%string).
Proof.
  intros Hscript Hpre. rewrite sendCommand_outcome, sendCommand_sent, sendCommand_log, Hscript.
  rewrite await_error by assumption. repeat split.
  destruct (await_error_log pre post e Hpre) as [entries ->].
  by rewrite app_assoc, last_snoc.
Qed.

Lemma sendCommand_rejects_on_error_witness :
  fst (sendCommand [Some 0x4A; Some 1; Some 0]
         {| script := [[EvFrame AckFrame; EvError (EmitterError 7)]]; sent := []; log := [] |})
  = Rejected (EmitterError 7).
Proof.
  exact (proj1 (sendCommand_rejects_on_error [Some 0x4A; Some 1; Some 0]
                  {| script := [[EvFrame AckFrame; EvError (EmitterError 7)]];
                     sent := []; log := [] |}
                  [EvFrame AckFrame] [] [] (EmitterError 7) eq_refl
                  (Forall_cons_2 _ _ _ (or_introl eq_refl) (Forall_nil_2 _)))).
Defined.

(** X2: a request that only ever sees Ack and Nack frames stays pending:
    there is no timeout, and a Nack brings no answer of any kind. *)
Theorem sendCommand_waits_without_data
    (commandBuffer : JsArray) (w : World) (events : list Event) (more : list (list Event)) :
  script w = events :: more ->
  Forall unsettling events ->
  fst (sendCommand commandBuffer w) = Pending
  /\ sent (snd (sendCommand commandBuffer w)) = sent w ++ [commandBuffer].
Proof.
  intros Hscript Hevents. rewrite sendCommand_outcome, sendCommand_sent, Hscript.
  by rewrite await_unsettled.
Qed.

Lemma sendCommand_waits_without_data_witness :
  fst (sendCommand [Some 0x4A; Some 1; Some 0]
         {| script := [[EvFrame AckFrame; EvFrame NackFrame; EvFrame NackFrame]];
            sent := []; log := [] |})
  = Pending.
Proof.
  exact (proj1 (sendCommand_waits_without_data [Some 0x4A; Some 1; Some 0]
                  {| script := [[EvFrame AckFrame; EvFrame NackFrame; EvFrame NackFrame]];
                     sent := []; log := [] |}
                  _ [] eq_refl
                  (Forall_cons_2 _ _ _ (or_introl eq_refl)
                     (Forall_cons_2 _ _ _ (or_intror eq_refl)
                        (Forall_cons_2 _ _ _ (or_intror eq_refl) (Forall_nil_2 _)))))).
Defined.

(** ** Operations of one request *)

Lemma nextOutcome_error (w : World) (pre post : list Event) (more : list (list Event))
    (e : Error) :
  script w = (pre ++ EvError e :: post) :: more -> Forall unsettling pre ->
  nextOutcome w = Rejected e.
Proof. intros Hscript Hpre. unfold nextOutcome. rewrite Hscript. by apply await_error. Qed.

(** An operation that logs one line, makes one request and hands the frame
    to a callback. *)
Lemma logged_request_outcome {A} (l : Level) (message : string) (commandBuffer : JsArray)
    (cb : Frame -> M A) (w : World) :
  fst ((logger l message ;; then_ (sendCommand commandBuffer) cb) w) =
    match nextOutcome w with
    | Resolved frame =>
        fst (cb frame (snd (sendCommand commandBuffer
                              {| script := script w; sent := sent w;
                                 log := log w ++ [(l, message)] |})))
    | Rejected e => Rejected e
    | Pending => Pending
    | Diverged => Diverged
    end.
Proof.
  rewrite then_eq. cbn [logger].
  set (w1 := {| script := script w; sent := sent w; log := _ |}).
  change (nextOutcome w) with (nextOutcome w1). unfold nextOutcome.
  rewrite <- (sendCommand_outcome commandBuffer w1), then_eq.
  destruct (sendCommand commandBuffer w1) as [[frame|e| |] w2]; reflexivity.
Qed.

Lemma logged_request_sent {A} (l : Level) (message : string) (commandBuffer : JsArray)
    (cb : Frame -> M A) (w : World) :
  (forall frame w', sent (snd (cb frame w')) = sent w') ->
  sent (snd ((logger l message ;; then_ (sendCommand commandBuffer) cb) w))
  = sent w ++ [commandBuffer].
Proof.
  intros Hcb. rewrite then_eq. cbn [logger].
  set (w1 := {| script := script w; sent := sent w; log := _ |}).
  pose proof (sendCommand_sent commandBuffer w1) as Hs. rewrite then_eq.
  destruct (sendCommand commandBuffer w1) as [[frame|e| |] w2]; cbn [fst snd] in *;
    rewrite ?Hcb; exact Hs.
Qed.

Section RequestFacts.

Variable c : Constants.
Variable m : MoreConstants.

(** X3: when an error is emitted before the response, every operation of
    one request rejects with that very error: [scanTag], [readBlock],
    [writeBlock], [getFirmwareVersion], [getGeneralStatus],
    [configureSecureAccessModule], [authenticateBlock] and [emulateTag]. *)
Theorem error_rejects_the_operation
    (w : World) (pre post : list Event) (more : list (list Event)) (e : Error)
    (options : option Options) (block : JsArray) (uid : string)
    (authOptions : option AuthOptions) :
  script w = (pre ++ EvError e :: post) :: more ->
  Forall unsettling pre ->
  fst (scanTag c w) = Rejected e
  /\ fst (readBlock c options w) = Rejected e
  /\ fst (writeBlock c block options w) = Rejected e
  /\ fst (getFirmwareVersion m w) = Rejected e
  /\ fst (getGeneralStatus m w) = Rejected e
  /\ fst (configureSecureAccessModule m w) = Rejected e
  /\ fst (authenticateBlock c m uid authOptions w) = Rejected e
  /\ fst (emulateTag w) = Rejected e.
Proof.
  intros Hscript Hpre.
  pose proof (nextOutcome_error w pre post more e Hscript Hpre) as Hnext.
  rewrite scanTag_outcome, readBlock_outcome, writeBlock_outcome.
  unfold getFirmwareVersion, getGeneralStatus, authenticateBlock, emulateTag.
  rewrite !logged_request_outcome, Hnext.
  repeat split.
  unfold configureSecureAccessModule. rewrite then_eq. cbn [logger].
  rewrite sendCommand_outcome. cbn [script]. rewrite Hscript. by apply await_error.
Qed.

(** X4: [readNdefData] never rejects: whatever the device does, its promise
    resolves, stays pending, or the scan of the first block spins. *)
Theorem readNdefData_never_rejects (w : World) (e : Error) :
  fst (readNdefData c w) <> Rejected e.
Proof.
  unfold readNdefData. rewrite then_eq. cbn [logger]. unfold catch_.
  destruct (then_ _ _ _) as [[data|e'| |] w']; cbn; discriminate.
Qed.

End RequestFacts.

Lemma error_rejects_the_operation_witness :
  let w := {| script := [[EvFrame AckFrame; EvError (EmitterError 7)]];
              sent := []; log := [] |} in
  fst (scanTag c0 w) = Rejected (EmitterError 7)
  /\ fst (getFirmwareVersion m0 w) = Rejected (EmitterError 7).
Proof.
  intros w.
  destruct (error_rejects_the_operation c0 m0 w [EvFrame AckFrame] [] [] (EmitterError 7)
              None [] "de:ad" None eq_refl
              (Forall_cons_2 _ _ _ (or_introl eq_refl) (Forall_nil_2 _)))
    as (Hscan & _ & _ & Hfirmware & _).
  split; [exact Hscan | exact Hfirmware].
Defined.

(** ** The UID: from scanTag to authenticateBlock *)

Lemma slice_middle (pre mid post : Buffer) :
  slice (pre ++ mid ++ post) (Z.of_nat (length pre))
    (Z.of_nat (length pre) + Z.of_nat (length mid)) = mid.
Proof.
  unfold slice, clampIndex. rewrite !length_app.
  destruct (Z.ltb_spec (Z.of_nat (length pre)) 0) as [|_]; [lia|].
  destruct (Z.ltb_spec (Z.of_nat (length pre) + Z.of_nat (length mid)) 0) as [|_]; [lia|].
  rewrite !Z.min_l by lia.
  replace (Z.of_nat (length pre) + Z.of_nat (length mid) - Z.of_nat (length pre))
    with (Z.of_nat (length mid)) by lia.
  by rewrite !Nat2Z.id, drop_app_length, take_app_length.
Qed.

Lemma byteZ_inj (a b : byte) : byteZ a = byteZ b -> a = b.
Proof.
  unfold byteZ. intros H. apply N2Z.inj in H.
  apply (f_equal Byte.of_N) in H. rewrite !Byte.of_to_N in H. congruence.
Qed.

Section ScanFacts.

Variable c : Constants.

(** X5: for a response that lists one target, a SENS_RES of two bytes, a
    SEL_RES, and a UID of one byte or more whose length byte is right,
    [scanTag] resolves with these as ATQA and SAK and with the UID bytes as
    two lowercase hexadecimal digits each, joined by colons; what follows
    the UID is ignored. *)
Theorem scanTag_reads_the_target
    (w : World) (events : list Event) (more : list (list Event)) (d : Direction)
    (tg a1 a2 sak n u : byte) (us rest : Buffer) :
  script w = events :: more ->
  fst (await events) = Resolved (DataFrame d ([x01; tg; a1; a2; sak; n] ++ (u :: us) ++ rest)) ->
  byteZ n = Z.of_nat (length (u :: us)) ->
  fst (scanTag c w)
  = Resolved (Some {| ATQA := [a1; a2]; SAK := Some sak;
                      uid := join ":" (hexByte <$> u :: us) |})
  /\ sent (snd (scanTag c w)) = sent w ++ [scanTag_command c].
Proof.
  intros Hscript Hawait Hn. split.
  - rewrite scanTag_outcome. unfold nextOutcome. rewrite Hscript, Hawait.
    set (body := [x01; tg; a1; a2; sak; n] ++ (u :: us) ++ rest).
    assert (Huid : slice body 6 (toInteger (jsAdd (Some 6) (toNum (index body 5)))) = u :: us).
    { change (index body 5) with (Some n).
      cbn [toNum fmap option_fmap option_map jsAdd toInteger default from_option id].
      rewrite Hn. apply (slice_middle [x01; tg; a1; a2; sak; n] (u :: us) rest). }
    rewrite (scanTag_then_tag d body u us eq_refl Huid). repeat f_equal.
    apply (slice_middle [x01; tg] [a1; a2] (sak :: n :: (u :: us) ++ rest)).
  - unfold scanTag. apply logged_request_sent. reflexivity.
Qed.

End ScanFacts.

Lemma scanTag_reads_the_target_witness :
  fst (scanTag c0 {| script := [reply [x01; x01; x00; x44; x00; x07; x04; xa1; xb2; xc3;
                                       xd4; xe5; xf6]];
                     sent := []; log := [] |})
  = Resolved (Some {| ATQA := [x00; x44]; SAK := Some x00; uid := "04:a1:b2:c3:d4:e5:f6" |}).
Proof.
  exact (proj1 (scanTag_reads_the_target c0
                  {| script := [reply [x01; x01; x00; x44; x00; x07; x04; xa1; xb2; xc3;
                                       xd4; xe5; xf6]];
                     sent := []; log := [] |}
                  _ [] DeviceToHost x01 x00 x44 x00 x07 x04 [xa1; xb2; xc3; xd4; xe5; xf6] []
                  eq_refl eq_refl eq_refl)).
Defined.

Lemma split_colon_hexByte (b : byte) : split_colon (hexByte b) = [hexByte b].
Proof. destruct b; reflexivity. Qed.

Lemma split_colon_hexByte_colon (b : byte) (s : string) :
  split_colon (hexByte b +:+ ":" +:+ s) = hexByte b :: split_colon s.
Proof. destruct b; reflexivity. Qed.

Lemma split_colon_join (u : byte) (us : Buffer) :
  split_colon (join ":" (hexByte <$> u :: us)) = hexByte <$> u :: us.
Proof.
  revert u. induction us as [|u' us IH]; intros u.
  - apply split_colon_hexByte.
  - change (join ":" (hexByte <$> u :: u' :: us))
      with (hexByte u +:+ ":" +:+ join ":" (hexByte <$> u' :: us)).
    rewrite split_colon_hexByte_colon, IH. reflexivity.
Qed.

Lemma Number_0x_hexByte (b : byte) : Number_0x (hexByte b) = Some (byteZ b).
Proof. destruct b; reflexivity. Qed.

Section AuthFacts.

Variable c : Constants.
Variable m : MoreConstants.

(** X6: [authenticateBlock] reads back the UID string that [scanTag] makes:
    given the colon-separated digits of one or more UID bytes and no
    options, its command is the header with tag number [0x01], the
    type A authentication and block address [0x04], then six bytes [0xFF],
    then exactly those UID bytes. *)
Theorem authenticateBlock_takes_the_scanned_uid (u : byte) (us : Buffer) (w : World) :
  sent (snd (authenticateBlock c m (join ":" (hexByte <$> u :: us)) None w))
  = sent w ++ [[Some (COMMAND_IN_DATA_EXCHANGE c); Some 0x01;
                Some (MIFARE_COMMAND_AUTH_A m); Some 0x04]
                 ++ replicate 6 (Some 0xFF) ++ (Some <$> (byteZ <$> u :: us))].
Proof.
  unfold authenticateBlock. rewrite logged_request_sent by reflexivity.
  rewrite split_colon_join. do 2 f_equal.
  cbn [default from_option id noAuthOptions auth_blockAddress authType authKey auth_tagNumber
       jsOr].
  rewrite <- app_assoc. do 2 f_equal.
  rewrite <- !list_fmap_compose. apply list_fmap_ext. intros _ b _. cbn.
  unfold element. apply Number_0x_hexByte.
Qed.

(** X7: [emulateTag] always sends the same command of 38 bytes and reads
    the response exactly as [scanTag] reads its own: the same tag, no tag,
    or the same rejection. *)
Theorem emulateTag_reads_like_scanTag (w : World) :
  fst (emulateTag w) = fst (scanTag c w)
  /\ sent (snd (emulateTag w)) = sent w ++ [emulateTag_command]
  /\ length emulateTag_command = 38%nat.
Proof.
  unfold emulateTag, scanTag. rewrite !logged_request_outcome.
  rewrite logged_request_sent by reflexivity. repeat split.
Qed.

End AuthFacts.

(** ** The TLV scan of readNdefData *)

Lemma index_app_0 (pre : Buffer) (x : byte) (rest : Buffer) :
  index (pre ++ x :: rest) (Z.of_nat (length pre)) = Some x.
Proof.
  unfold index. destruct (Z.ltb_spec (Z.of_nat (length pre)) 0) as [|_]; [lia|].
  rewrite Nat2Z.id. by apply list_lookup_middle.
Qed.

Lemma index_app_1 (pre : Buffer) (x y : byte) (rest : Buffer) :
  index (pre ++ x :: y :: rest) (Z.of_nat (length pre) + 1) = Some y.
Proof.
  replace (Z.of_nat (length pre) + 1) with (Z.of_nat (length (pre ++ [x])))
    by (rewrite length_app; cbn; lia).
  replace (pre ++ x :: y :: rest) with ((pre ++ [x]) ++ y :: rest) by (by rewrite <- app_assoc).
  apply index_app_0.
Qed.

Lemma index_last_1 (pre : Buffer) (x : byte) :
  index (pre ++ [x]) (Z.of_nat (length pre) + 1) = None.
Proof.
  unfold index. destruct (Z.ltb_spec (Z.of_nat (length pre) + 1) 0) as [|_]; [lia|].
  apply lookup_ge_None_2. rewrite length_app. cbn. lia.
Qed.

Lemma strictEq_other_type (t : byte) : t <> x03 -> strictEq (Some t) TAG_MEM_NDEF_TLV = false.
Proof.
  intros Ht. cbn [strictEq]. apply Z.eqb_neq. intros H. apply Ht.
  apply byteZ_inj. exact H.
Qed.

Lemma length_encodeEntries_cons (e : TlvEntry) (es : list TlvEntry) :
  skipped e ->
  Z.of_nat (length (encodeEntries (e :: es)))
  = 2 + byteZ (tlvLength e) + Z.of_nat (length (encodeEntries es)).
Proof.
  intros [_ Hlen]. unfold encodeEntries. cbn [fmap list_fmap concat encodeEntry].
  rewrite length_app. unfold encodeEntry. cbn [length]. rewrite Hlen.
  pose proof (byteZ_nonneg (tlvLength e)). lia.
Qed.

(** The loop steps over complete entries of other types, one round each. *)
Lemma tlvLoop_skip (es : list TlvEntry) :
  forall (pre tail : Buffer) (fuel : nat),
    Forall skipped es ->
    tlvLoop (length es + fuel) (pre ++ encodeEntries es ++ tail) (Some (Z.of_nat (length pre)))
    = tlvLoop fuel (pre ++ encodeEntries es ++ tail)
        (Some (Z.of_nat (length pre) + Z.of_nat (length (encodeEntries es)))).
Proof.
  induction es as [|e es IH]; intros pre tail fuel Hes.
  - cbn [length Nat.add encodeEntries fmap list_fmap concat]. by rewrite Z.add_0_r.
  - apply Forall_cons in Hes as [He Hes].
    rewrite (length_encodeEntries_cons e es He).
    destruct He as [Htype Hlen]. pose proof (byteZ_nonneg (tlvLength e)) as Hnonneg.
    assert (Hblock : pre ++ encodeEntries (e :: es) ++ tail
                     = (pre ++ encodeEntry e) ++ encodeEntries es ++ tail).
    { unfold encodeEntries. cbn [fmap list_fmap concat]. by rewrite <- !app_assoc. }
    assert (Hoffset : Z.of_nat (length (pre ++ encodeEntry e))
                      = Z.of_nat (length pre) + 2 + byteZ (tlvLength e)).
    { rewrite length_app. unfold encodeEntry. cbn [length]. rewrite Hlen. lia. }
    remember (pre ++ encodeEntries (e :: es) ++ tail) as block eqn:Hb.
    assert (Hshape : block = pre ++ tlvType e :: tlvLength e
                               :: (tlvValue e ++ encodeEntries es ++ tail)).
    { rewrite Hblock. unfold encodeEntry. by rewrite <- app_assoc. }
    assert (H0 : index block (Z.of_nat (length pre)) = Some (tlvType e))
      by (rewrite Hshape; apply index_app_0).
    assert (H1 : index block (Z.of_nat (length pre) + 1) = Some (tlvLength e))
      by (rewrite Hshape; apply index_app_1).
    assert (Hlt : Z.of_nat (length pre) < Z.of_nat (length block))
      by (rewrite Hshape, length_app; cbn [length]; lia).
    cbn [length Nat.add tlvLoop jsGe indexNum jsAdd].
    destruct (Z.leb_spec (Z.of_nat (length block)) (Z.of_nat (length pre))) as [|_]; [lia|].
    rewrite H0, H1, (strictEq_other_type _ Htype).
    cbn [toNum fmap option_fmap option_map jsAdd].
    rewrite <- Hoffset, Hblock, (IH (pre ++ encodeEntry e) tail fuel Hes).
    f_equal. f_equal. lia.
Qed.

Lemma length_encodeEntries (es : list TlvEntry) :
  (length es <= length (encodeEntries es))%nat.
Proof.
  induction es as [|e es IH]; [reflexivity|].
  unfold encodeEntries in *. cbn [fmap list_fmap concat].
  rewrite length_app. unfold encodeEntry at 1. cbn [length]. lia.
Qed.

(** X8: the scan steps over any number of complete entries of other types
    (a type byte, a length byte, that many value bytes).  If the NDEF type
    byte [0x03] and a length byte follow, it reports that length and the
    offset just past it; if the block ends with the last entry, it gives
    up with the error of line 219. *)
Theorem findNdefTlv_skips_other_entries (es : list TlvEntry) (L : byte) (rest : Buffer) :
  Forall skipped es ->
  findNdefTlv (encodeEntries es ++ x03 :: L :: rest)
  = Some (Found (Some L) (Some (Z.of_nat (length (encodeEntries es)) + 2)))
  /\ findNdefTlv (encodeEntries es) = Some NotFound.
Proof.
  intros Hes. split.
  - unfold findNdefTlv. set (block := encodeEntries es ++ x03 :: L :: rest).
    assert (Hrun : tlvLoop (length es + 1) block (Some 0)
                   = Some (Found (Some L) (Some (Z.of_nat (length (encodeEntries es)) + 2)))).
    { pose proof (tlvLoop_skip es [] (x03 :: L :: rest) 1 Hes) as Hskip.
      cbn [app length] in Hskip. change (Z.of_nat 0) with 0 in Hskip.
      rewrite Z.add_0_l in Hskip. unfold block. rewrite Hskip.
      cbn [tlvLoop jsGe indexNum jsAdd].
      destruct (Z.leb_spec (Z.of_nat (length (encodeEntries es ++ x03 :: L :: rest)))
                  (Z.of_nat (length (encodeEntries es)))) as [Hle|_].
      { rewrite length_app in Hle. cbn [length] in Hle. lia. }
      rewrite index_app_0, index_app_1. reflexivity. }
    pose proof (length_encodeEntries es) as Hlen.
    replace (S (length block))
      with (length es + 1 + (length block - length es))%nat.
    + by apply tlvLoop_more_fuel.
    + unfold block. rewrite length_app. lia.
  - unfold findNdefTlv.
    pose proof (tlvLoop_skip es [] [] 1 Hes) as Hskip.
    cbn [app length] in Hskip. change (Z.of_nat 0) with 0 in Hskip.
    rewrite app_nil_r, Z.add_0_l in Hskip.
    assert (Hrun : tlvLoop (length es + 1) (encodeEntries es) (Some 0) = Some NotFound).
    { rewrite Hskip. cbn [tlvLoop jsGe].
      destruct (Z.leb_spec (Z.of_nat (length (encodeEntries es)))
                  (Z.of_nat (length (encodeEntries es)))) as [_|]; [reflexivity|lia]. }
    pose proof (length_encodeEntries es) as Hlen.
    replace (S (length (encodeEntries es)))
      with (length es + 1 + (length (encodeEntries es) - length es))%nat by lia.
    by apply tlvLoop_more_fuel.
Qed.

Lemma findNdefTlv_skips_other_entries_witness :
  findNdefTlv ([x01; x03; xa0; x0c; x34] ++ [x00; x00] ++ [x03; x02; x41; x42; xfe])
  = Some (Found (Some x02) (Some 9)).
Proof.
  apply (findNdefTlv_skips_other_entries
           [{| tlvType := x01; tlvLength := x03; tlvValue := [xa0; x0c; x34] |};
            {| tlvType := x00; tlvLength := x00; tlvValue := [] |}]
           x02 [x41; x42; xfe]).
  repeat constructor; discriminate.
Defined.

(** The scan that meets another type in the last byte of the block never
    comes back: the length it reads is [undefined] and its offset [NaN]. *)
Lemma tlvLoop_trailing_type (es : list TlvEntry) (t : byte) :
  Forall skipped es -> t <> x03 ->
  forall fuel, tlvLoop fuel (encodeEntries es ++ [t]) (Some 0) = None.
Proof.
  intros Hes Ht.
  assert (Hlong : forall fuel, tlvLoop (length es + S fuel) (encodeEntries es ++ [t]) (Some 0)
                               = None).
  { intros fuel. pose proof (tlvLoop_skip es [] [t] (S fuel) Hes) as Hskip.
    cbn [app length] in Hskip. change (Z.of_nat 0) with 0 in Hskip.
    rewrite Z.add_0_l in Hskip. rewrite Hskip.
    cbn [tlvLoop jsGe indexNum jsAdd].
    destruct (Z.leb_spec (Z.of_nat (length (encodeEntries es ++ [t])))
                (Z.of_nat (length (encodeEntries es)))) as [Hle|_].
    { rewrite length_app in Hle. cbn [length] in Hle. lia. }
    rewrite index_app_0, index_last_1, (strictEq_other_type t Ht).
    cbn [toNum fmap option_fmap option_map jsAdd]. apply tlvLoop_NaN. }
  intros fuel. destruct (tlvLoop fuel _ _) as [r|] eqn:Hr; [|reflexivity].
  apply (tlvLoop_more_fuel _ fuel (length es + 1)) in Hr.
  replace (fuel + (length es + 1))%nat with (length es + S fuel)%nat in Hr by lia.
  rewrite Hlong in Hr. discriminate.
Qed.

Section HangFacts.

Variable c : Constants.

(** X9: when the first block read ends in a single byte of another type,
    after any number of complete entries of other types, the scan of
    [readNdefData] never ends, whatever the number of rounds: the promise
    is never settled, nothing is logged as an error and no further block
    is read. *)
Theorem readNdefData_spins_on_trailing_type
    (w : World) (events : list Event) (more : list (list Event)) (d : Direction)
    (body : Buffer) (es : list TlvEntry) (t : byte) :
  script w = events :: more ->
  fst (await events) = Resolved (DataFrame d body) ->
  removelast (tail body) = encodeEntries es ++ [t] ->
  Forall skipped es -> t <> x03 ->
  (forall fuel, tlvLoop fuel (removelast (tail body)) (Some 0) = None)
  /\ fst (readNdefData c w) = Diverged
  /\ sent (snd (readNdefData c w))
     = sent w ++ [readCommand c (Some {| tagNumber := None; blockAddress := Some 4 |})].
Proof.
  intros Hscript Hawait Hblock Hes Ht.
  assert (Hspin : forall fuel, tlvLoop fuel (removelast (tail body)) (Some 0) = None)
    by (rewrite Hblock; by apply tlvLoop_trailing_type).
  split; [exact Hspin|].
  set (options := Some {| tagNumber := None; blockAddress := Some 4 |}).
  set (w1 := entered "Reading data..." w).
  change (readNdefData c w)
    with (catch_ (then_ (readBlock c options) (readNdefData_then c))
            (fun _ => logger error "ERROR:" ;; ret None) w1).
  pose proof (readBlock_outcome c options w1) as Ho.
  pose proof (readBlock_sent c options w1) as Hs.
  unfold catch_. rewrite (then_eq (readBlock c options) _ w1).
  destruct (readBlock c options w1) as [o w2]. cbn [fst snd] in Ho, Hs.
  unfold nextOutcome in Ho. cbn [w1 entered script sent] in Ho, Hs.
  rewrite Hscript, Hawait in Ho. cbn [stripped getDataBody] in Ho. subst o.
  unfold readNdefData_then, findNdefTlv. rewrite Hspin. split; [reflexivity|exact Hs].
Qed.

End HangFacts.

Lemma readNdefData_spins_on_trailing_type_witness :
  fst (readNdefData c0
         {| script := [reply ([x00; x01; x0d] ++ replicate 13 x00 ++ [x09; x90])];
            sent := []; log := [] |})
  = Diverged.
Proof.
  refine (proj1 (proj2 (readNdefData_spins_on_trailing_type c0
           {| script := [reply ([x00; x01; x0d] ++ replicate 13 x00 ++ [x09; x90])];
              sent := []; log := [] |}
           (reply ([x00; x01; x0d] ++ replicate 13 x00 ++ [x09; x90])) [] DeviceToHost
           ([x00; x01; x0d] ++ replicate 13 x00 ++ [x09; x90])
           [{| tlvType := x01; tlvLength := x0d; tlvValue := replicate 13 x00 |}] x09
           _ _ _ _ _))).
  - reflexivity.
  - reflexivity.
  - reflexivity.
  - repeat constructor. discriminate.
  - discriminate.
Defined.

(** ** Several requests at once *)

Lemma deliveries_rejection_polling (e : Error) (listeners : list nat) :
  forall pn : Driver, polling (foldl (deliver (EvError e)) pn listeners) = polling pn.
Proof.
  induction listeners as [|x rest IH]; intros pn; [reflexivity|].
  cbn [foldl]. by rewrite IH.
Qed.

Section ManyRequests.

Variable c : Constants.

(** X10: a data frame or an error settles every request that is
    outstanding when it is emitted, all with that same frame or error:
    afterwards no listener is left on the frame emitter, the requests that
    were pending hold the event's outcome and the others keep theirs. *)
Theorem settling_event_settles_every_request
    (ops : list Op) (ev : Event) (o : Outcome Frame) (id : nat) :
  settlement ev = Some o ->
  let pn := run c ops in
  let pn' := run c (ops ++ [Emit ev]) in
  frameListeners pn' = [] /\ errorListeners pn' = []
  /\ promises pn' !! id
     = match promises pn !! id with
       | Some kept => Some kept
       | None => if decide (id < requests pn)%nat then Some o else None
       end.
Proof. apply settling_event_run. Qed.

(** X12: one command is written for each request and nothing else is ever
    written: no emitted event makes the driver write, be it a Nack, an
    error, or silence; a command is never sent again. *)
Theorem one_write_per_request (ops : list Op) (ev : Event) :
  length (written (run c ops)) = requests (run c ops)
  /\ written (run c (ops ++ [Emit ev])) = written (run c ops).
Proof.
  split.
  - unfold run. induction ops as [|op ops IH] using rev_ind; [reflexivity|].
    rewrite foldl_app. cbn [foldl]. set (pn := foldl (step c) PN532 ops) in *.
    destruct op as [commandBuffer|ev'| |]; cbn [step].
    + cbn [register written requests]. rewrite length_app. cbn [length]. lia.
    + unfold emit. by destruct (deliveries_written ev'
                                  (match ev' with
                                   | EvFrame _ => frameListeners pn
                                   | EvError _ => errorListeners pn
                                   end) pn) as [-> ->].
    + cbn [onTag poll setPolling register note written requests].
      rewrite length_app. cbn [length]. lia.
    + unfold timerFires. destruct (timers (polling pn)); [exact IH|].
      cbn [poll setPolling register note written requests].
      rewrite length_app. cbn [length]. lia.
  - unfold run. rewrite foldl_app. cbn [foldl step]. unfold emit.
    apply deliveries_written.
Qed.

End ManyRequests.

Lemma settling_event_settles_every_request_witness :
  let frame := DataFrame DeviceToHost [x32; x01; x06; x07] in
  promises (run c0 ([SendCommand [Some 2]; SendCommand [Some 4]] ++ [Emit (EvFrame frame)]))
    !! 1%nat
  = Some (Resolved frame).
Proof.
  intros frame.
  destruct (settling_event_settles_every_request c0 [SendCommand [Some 2]; SendCommand [Some 4]]
              (EvFrame frame) (Resolved frame) 1 eq_refl) as (_ & _ & Hpromise).
  exact Hpromise.
Defined.

(** ** Polling after an error, and one round of polling *)

Lemma note_note (a b : list LogEntry) (pn : Driver) : note b (note a pn) = note (a ++ b) pn.
Proof. unfold note. cbn. by rewrite app_assoc. Qed.

Lemma note_nil (pn : Driver) : note [] pn = pn.
Proof. destruct pn. unfold note. cbn. by rewrite app_nil_r. Qed.

Lemma emit_unsettling (ev : Event) (pn : Driver) (id : nat) :
  unsettling ev -> frameListeners pn = [id] -> exists entries, emit ev pn = note entries pn.
Proof.
  intros [-> | ->] Hf; unfold emit; rewrite Hf; cbn; eauto.
Qed.

Section PollingFacts.

Variable c : Constants.

Lemma spontaneous_idle (later : list Op) (pn : Driver) :
  Forall spontaneous later ->
  frameListeners pn = [] -> errorListeners pn = [] -> timers (polling pn) = O ->
  foldl (step c) pn later = pn.
Proof.
  intros Hlater Hf He Ht. induction Hlater as [|op later [[ev ->] | ->] _ IH]; [reflexivity| |].
  - cbn [foldl step]. by rewrite emit_no_listener.
  - cbn [foldl step]. unfold timerFires. by rewrite Ht.
Qed.

(** X13: one error ends the polling for good.  When every polling loop is
    waiting for a response (no timer is pending) and an error is emitted,
    then, until somebody subscribes to ['tag'] or calls the driver again,
    no ['tag'] event is emitted any more and no scan command is written,
    whatever frames arrive and whatever timers fire. *)
Theorem error_ends_polling (ops later : list Op) (e : Error) :
  timers (polling (run c ops)) = O ->
  Forall spontaneous later ->
  let pn := run c ops in
  let pn' := run c (ops ++ Emit (EvError e) :: later) in
  tagEvents (polling pn') = tagEvents (polling pn)
  /\ written pn' = written pn
  /\ timers (polling pn') = O
  /\ frameListeners pn' = [] /\ errorListeners pn' = [].
Proof.
  intros Htimers Hlater pn pn'.
  destruct (settling_event_run c ops (EvError e) (Rejected e) O eq_refl) as (Hf & He & _).
  assert (Hstep : run c (ops ++ [Emit (EvError e)]) = emit (EvError e) pn)
    by (subst pn; unfold run; by rewrite foldl_app).
  rewrite Hstep in Hf, He.
  assert (Hpolling : polling (emit (EvError e) pn) = polling pn)
    by apply deliveries_rejection_polling.
  assert (Hrun : pn' = emit (EvError e) pn).
  { subst pn pn'. unfold run. rewrite foldl_app. cbn [foldl step].
    apply spontaneous_idle; [assumption|assumption|assumption|].
    fold (run c ops). by rewrite Hpolling. }
  rewrite Hrun, Hpolling. repeat split; try assumption.
  unfold emit. apply deliveries_written.
Qed.

(** X14: one round of polling.  After one subscription to ['tag'], any
    Ack and Nack frames and then a data frame, a response that [scanTag]
    reads emits ['tag'] once, with the tag or with [undefined] when no
    target is listed, and sets one timer, which sends the next scan when it
    fires; a response on which [scanTag] rejects emits nothing, sets no
    timer, and no scan follows. *)
Theorem polling_round (acks : list Event) (d : Direction) (body : Buffer) :
  Forall unsettling acks ->
  let frame := DataFrame d body in
  let pn := run c (OnTag :: (Emit <$> acks) ++ [Emit (EvFrame frame)]) in
  let next := run c (OnTag :: (Emit <$> acks) ++ [Emit (EvFrame frame); TimerFires]) in
  match scanTag_then frame with
  | Resolved tag =>
      tagEvents (polling pn) = [tag] /\ timers (polling pn) = 1%nat
      /\ written next = [scanTag_command c; scanTag_command c]
  | _ =>
      tagEvents (polling pn) = [] /\ timers (polling pn) = O
      /\ written next = [scanTag_command c]
  end.
Proof.
  intros Hacks frame pn next.
  assert (Hquiet : exists entries,
             foldl (step c) (onTag c PN532) (Emit <$> acks) = note entries (onTag c PN532)).
  { clear pn next. revert Hacks.
    induction acks as [|ev acks IH] using rev_ind; intros Hacks.
    - exists []. cbn. by rewrite note_nil.
    - apply Forall_app in Hacks as [Hacks Hev]. rewrite Forall_singleton in Hev.
      destruct (IH Hacks) as [entries IH'].
      rewrite fmap_app, foldl_app, IH'. cbn [fmap list_fmap foldl step].
      destruct (emit_unsettling ev (note entries (onTag c PN532)) O Hev eq_refl)
        as [more ->].
      rewrite note_note. eauto. }
  destruct Hquiet as [entries Hquiet].
  assert (Hpn : pn = emit (EvFrame frame) (note entries (onTag c PN532))).
  { subst pn. unfold run. cbn [foldl step]. fold (onTag c PN532).
    by rewrite foldl_app, Hquiet. }
  assert (Hnext : next = timerFires c pn).
  { subst next pn. unfold run. cbn [foldl step].
    change [Emit (EvFrame frame); TimerFires] with ([Emit (EvFrame frame)] ++ [TimerFires]).
    by rewrite !app_assoc, foldl_app. }
  rewrite Hnext, Hpn. unfold emit, timerFires.
  cbn [note onTag poll setPolling register frameListeners foldl deliver react onFrame frame
       requests PN532 app].
  unfold settle, settlePromise, removeListeners, note, polled.
  cbn [promises polling pollers frameListeners errorListeners removals written requests
       journal PN532 loops timers tagEvents].
  rewrite bool_decide_eq_true_2 by apply lookup_empty.
  rewrite bool_decide_eq_true_2 by (left).
  cbn [andb]. fold frame.
  destruct (scanTag_then frame) as [tag|e| |]; repeat split.
Qed.

End PollingFacts.

Lemma error_ends_polling_witness :
  let later := [Emit (EvFrame (DataFrame DeviceToHost [x01; x01; x00; x04; x08; x01; xaa]));
                TimerFires; Emit (EvFrame AckFrame)] in
  tagEvents (polling (run c0 ([OnTag] ++ Emit (EvError (EmitterError 1)) :: later))) = []
  /\ written (run c0 ([OnTag] ++ Emit (EvError (EmitterError 1)) :: later))
     = [scanTag_command c0].
Proof.
  intros later.
  destruct (error_ends_polling c0 [OnTag] later (EmitterError 1) eq_refl) as (Htags & Hw & _).
  - apply Forall_cons_2; [left; eexists; reflexivity|].
    apply Forall_cons_2; [right; reflexivity|].
    apply Forall_cons_2; [left; eexists; reflexivity|].
    apply Forall_nil_2.
  - split; [exact Htags | exact Hw].
Defined.

Lemma polling_round_witness :
  tagEvents (polling (run c0 (OnTag :: (Emit <$> [EvFrame AckFrame])
                                ++ [Emit (EvFrame (DataFrame DeviceToHost [x00]))])))
  = [None].
Proof.
  exact (proj1 (polling_round c0 [EvFrame AckFrame] DeviceToHost [x00]
                  (Forall_cons_2 _ _ _ (or_introl eq_refl) (Forall_nil_2 _)))).
Defined.

(** ** Reading further blocks, and reading back what was written *)

Lemma removelast_reply_body (status trailer : byte) (memory : Buffer) :
  removelast (tail (status :: memory ++ [trailer])) = memory.
Proof. cbn [tail]. apply removelast_last. Qed.

Lemma gather_replies (bodies : list Buffer) :
  forall (rest : list (list Event)) (ndefData : Buffer),
    gather (length bodies) ((reply <$> bodies) ++ rest) ndefData
    = Resolved (ndefData ++ concat ((fun body => removelast (tail body)) <$> bodies)).
Proof.
  induction bodies as [|body bodies IH]; intros rest ndefData.
  - cbn. by rewrite app_nil_r.
  - cbn [length fmap list_fmap app gather reply await react onFrame fst getDataBody concat].
    rewrite IH. by rewrite <- app_assoc.
Qed.

Lemma resolvedPrefix_replies (bodies : list Buffer) (rest : list (list Event)) :
  (length bodies <= resolvedPrefix ((reply <$> bodies) ++ rest))%nat.
Proof.
  induction bodies as [|body bodies IH]; [cbn; lia|].
  cbn [length fmap list_fmap app resolvedPrefix reply await react onFrame fst]. lia.
Qed.

Lemma slice_from_start (buf : Buffer) (n : Z) :
  0 <= n -> slice buf 0 n = take (Z.to_nat n) buf.
Proof.
  intros Hn. unfold slice, clampIndex.
  destruct (Z.ltb_spec 0 0) as [|_]; [lia|].
  destruct (Z.ltb_spec n 0) as [|_]; [lia|].
  rewrite (Z.min_l 0) by lia. change (Z.to_nat 0) with O. rewrite Z.sub_0_r.
  destruct (Z.le_ge_cases n (Z.of_nat (length buf))) as [Hle|Hge].
  - by rewrite Z.min_l, drop_0.
  - rewrite Z.min_r, Nat2Z.id, drop_0 by lia.
    rewrite (take_ge buf (length buf)) by lia.
    rewrite (take_ge buf (Z.to_nat n)) by lia. reflexivity.
Qed.

Lemma slice_to_end (buf : Buffer) (n : nat) :
  slice buf (Z.of_nat n) (Z.of_nat (length buf)) = drop n buf.
Proof.
  unfold slice, clampIndex.
  destruct (Z.ltb_spec (Z.of_nat n) 0) as [|_]; [lia|].
  destruct (Z.ltb_spec (Z.of_nat (length buf)) 0) as [|_]; [lia|].
  rewrite (Z.min_l (Z.of_nat (length buf))) by lia.
  destruct (Nat.le_ge_cases n (length buf)) as [Hle|Hge].
  - rewrite Z.min_l, Nat2Z.id by lia. apply take_ge. rewrite length_drop. lia.
  - rewrite Z.min_r, Nat2Z.id by lia. rewrite Z.sub_diag. cbn [Z.to_nat take].
    by rewrite !drop_ge.
Qed.

Section GatherFacts.

Variable c : Constants.

(** X15: when the value does not end in the first block, [readNdefData]
    reads as many further blocks as it computed, one after the other, at
    the block addresses 8, 12, ...; if all of them answer, it resolves with
    the first [L] bytes of the first block's part from the value offset on
    followed by the further blocks, each without its status byte and its
    last byte. *)
Theorem readNdefData_gathers_additional_blocks
    (w : World) (events : list Event) (rest : list (list Event)) (d : Direction)
    (body : Buffer) (L : byte) (v : nat) (further : list Buffer) :
  script w = events :: (reply <$> further) ++ rest ->
  fst (await events) = Resolved (DataFrame d body) ->
  findNdefTlv (removelast (tail body)) = Some (Found (Some L) (Some (Z.of_nat v))) ->
  Math_ceil_div (Z.of_nat v + byteZ L) 16 - 1 = Z.of_nat (length further) ->
  further <> [] ->
  fst (readNdefData c w)
  = Resolved (Some (take (Z.to_nat (byteZ L))
                      (drop v (removelast (tail body))
                         ++ concat ((fun b => removelast (tail b)) <$> further))))
  /\ sent (snd (readNdefData c w)) = sent w ++ blockReads c (S (length further)) 0.
Proof.
  intros Hscript Hawait Hscan Hblocks Hfurther.
  destruct further as [|b further]; [done|]. clear Hfurther.
  destruct (readNdefData_additional_blocks c w events _ d body L (Z.of_nat v) (length further)
              Hscript Hawait Hscan Hblocks) as [Ho Hs].
  split.
  - rewrite Ho. change (S (length further)) with (length (b :: further)).
    rewrite gather_replies, slice_to_end.
    rewrite slice_from_start by apply byteZ_nonneg. reflexivity.
  - rewrite Hs. pose proof (resolvedPrefix_replies (b :: further) rest) as Hprefix.
    rewrite take_ge.
    + reflexivity.
    + unfold blockReads. rewrite length_fmap, length_seq. cbn [length] in Hprefix. lia.
Qed.

End GatherFacts.

Lemma readNdefData_gathers_additional_blocks_witness :
  let first := [x00; x03; x10; x41; x42; x43; x44; x45; x46; x47; x48; x49; x4a; x4b; x4c;
                x4d; x4e; x90] in
  let second := [x00; x4f; x50; xfe] ++ replicate 13 x00 ++ [x90] in
  fst (readNdefData c0 {| script := [reply first; reply second]; sent := []; log := [] |})
  = Resolved (Some [x41; x42; x43; x44; x45; x46; x47; x48; x49; x4a; x4b; x4c; x4d; x4e;
                    x4f; x50]).
Proof.
  intros first second.
  refine (proj1 (readNdefData_gathers_additional_blocks c0
                   {| script := [reply first; reply second]; sent := []; log := [] |}
                   (reply first) [] DeviceToHost first x10 2 [second] _ _ _ _ _)).
  - reflexivity.
  - reflexivity.
  - reflexivity.
  - reflexivity.
  - discriminate.
Defined.

Lemma pageOf_padded (bytes : list Z) (n k : nat) :
  (k < n)%nat ->
  pageOf bytes k
  = take PAGE_SIZE (drop (PAGE_SIZE * k)
                      (bytes ++ replicate (PAGE_SIZE * n - length bytes) 0)).
Proof.
  intros Hk. unfold pageOf, PAGE_SIZE.
  rewrite drop_app, take_app, drop_replicate, take_replicate, length_take, !length_drop.
  f_equal. f_equal. lia.
Qed.

Lemma chunks_concat {A} (size : nat) (l : list A) (n : nat) :
  forall k, concat ((fun j => take size (drop (size * j) l)) <$> seq k n)
            = take (size * n) (drop (size * k) l).
Proof.
  induction n as [|n IH]; intros k.
  - cbn. by rewrite Nat.mul_0_r.
  - cbn [seq fmap list_fmap concat]. rewrite IH.
    replace (size * S k)%nat with (size * k + size)%nat by lia.
    rewrite <- drop_drop, take_take_drop. f_equal. lia.
Qed.

(** The pages that [writeNdefData] writes, laid end to end, are the bytes
    of the TLV block followed by the zero bytes of the last page. *)
Lemma pages_concat (bytes : list Z) :
  concat (pageOf bytes <$> seq 0 (pageCount bytes))
  = bytes ++ replicate (PAGE_SIZE * pageCount bytes - length bytes) 0.
Proof.
  set (padded := bytes ++ replicate (PAGE_SIZE * pageCount bytes - length bytes) 0).
  assert (Hpages : pageOf bytes <$> seq 0 (pageCount bytes)
                   = (fun j => take PAGE_SIZE (drop (PAGE_SIZE * j) padded))
                       <$> seq 0 (pageCount bytes)).
  { apply list_fmap_ext. intros i k Hk. apply pageOf_padded.
    apply lookup_seq in Hk as [-> Hlt]. lia. }
  rewrite Hpages, chunks_concat, Nat.mul_0_r, drop_0. apply take_ge.
  unfold padded. rewrite length_app, length_replicate.
  assert (length bytes <= PAGE_SIZE * pageCount bytes)%nat; [|lia].
  unfold pageCount, PAGE_SIZE.
  pose proof (Nat.div_mod (length bytes + 3) 4 ltac:(lia)).
  pose proof (Nat.mod_upper_bound (length bytes + 3) 4 ltac:(lia)). lia.
Qed.

Lemma fmap_byteZ_inj (a b : Buffer) : byteZ <$> a = byteZ <$> b -> a = b.
Proof.
  revert b. induction a as [|x a IH]; intros [|y b] H; try discriminate; [reflexivity|].
  cbn [fmap list_fmap] in H. injection H as Hxy Hab.
  f_equal; [by apply byteZ_inj | by apply IH].
Qed.

Lemma findNdefTlv_head (L : byte) (rest : Buffer) :
  findNdefTlv (x03 :: L :: rest) = Some (Found (Some L) (Some 2)).
Proof.
  unfold findNdefTlv. cbn [tlvLoop jsGe indexNum jsAdd].
  destruct (Z.leb_spec (Z.of_nat (length (x03 :: L :: rest))) 0) as [Hle|_];
    [cbn [length] in Hle; lia | reflexivity].
Qed.

Lemma additional_blocks_of_length (n : nat) :
  Math_ceil_div (2 + Z.of_nat n) 16 - 1 = Z.of_nat ((n + 1) / 16).
Proof.
  unfold Math_ceil_div. rewrite Nat2Z.inj_div, Nat2Z.inj_add.
  change (Z.of_nat 16) with 16. change (Z.of_nat 1) with 1.
  generalize (Z.of_nat n). intros a.
  pose proof (Z.div_mod (- (2 + a)) 16 ltac:(lia)).
  pose proof (Z.mod_pos_bound (- (2 + a)) 16 ltac:(lia)).
  pose proof (Z.div_mod (a + 1) 16 ltac:(lia)).
  pose proof (Z.mod_pos_bound (a + 1) 16 ltac:(lia)).
  lia.
Qed.

Lemma gather_memory (status trailer : byte) (memory : Buffer) (n : nat) :
  forall (k : nat) (rest : list (list Event)) (ndefData : Buffer),
    gather n ((memoryReply status trailer memory <$> seq k n) ++ rest) ndefData
    = Resolved (ndefData ++ take (16 * n) (drop (16 * k) memory)).
Proof.
  induction n as [|n IH]; intros k rest ndefData.
  - cbn. by rewrite app_nil_r.
  - cbn [seq fmap list_fmap app gather memoryReply reply await react onFrame fst getDataBody].
    rewrite removelast_reply_body.
    change (gather n ((memoryReply status trailer memory <$> seq (S k) n) ++ rest)
              (ndefData ++ take 16 (drop (16 * k) memory))
            = Resolved (ndefData ++ take (16 * S n) (drop (16 * k) memory))).
    rewrite IH, <- app_assoc. do 2 f_equal.
    replace (16 * S k)%nat with (16 * k + 16)%nat by lia.
    rewrite <- drop_drop, take_take_drop. f_equal. lia.
Qed.

Lemma resolvedPrefix_memory (status trailer : byte) (memory : Buffer) (n k : nat)
    (rest : list (list Event)) :
  (n <= resolvedPrefix ((memoryReply status trailer memory <$> seq k n) ++ rest))%nat.
Proof.
  revert k. induction n as [|n IH]; intros k; [lia|].
  cbn [seq fmap list_fmap app resolvedPrefix memoryReply reply await react onFrame fst].
  specialize (IH (S k)). lia.
Qed.

Section RoundTrip.

Variable c : Constants.

(** A tag memory that starts with the NDEF TLV of fifteen or more bytes is
    read back in full. *)
Lemma readNdefData_reads_memory
    (w : World) (data tail' : Buffer) (L status trailer : byte) (more : list (list Event)) :
  byteZ L = Z.of_nat (length data) ->
  (15 <= length data)%nat ->
  let memory := x03 :: L :: data ++ tail' in
  script w = (memoryReply status trailer memory <$> seq 0 (S ((length data + 1) / 16)))
               ++ more ->
  fst (readNdefData c w) = Resolved (Some data)
  /\ sent (snd (readNdefData c w)) = sent w ++ blockReads c (S ((length data + 1) / 16)) 0.
Proof.
  intros HL Hlong memory Hscript.
  assert (Hn : (1 <= (length data + 1) / 16)%nat)
    by (apply (Nat.div_le_lower_bound _ 16 1); lia).
  assert (Hcover : (length data + 2 <= 16 * S ((length data + 1) / 16))%nat).
  { pose proof (Nat.div_mod (length data + 1) 16 ltac:(lia)).
    pose proof (Nat.mod_upper_bound (length data + 1) 16 ltac:(lia)). lia. }
  remember ((length data + 1) / 16)%nat as n eqn:Hn'.
  destruct n as [|n']; [lia|].
  cbn [seq fmap list_fmap app] in Hscript.
  set (block := take 16 memory).
  assert (Hbody : removelast (tail (status :: take 16 (drop (16 * 0) memory) ++ [trailer]))
                  = block) by apply removelast_reply_body.
  assert (Hscan : findNdefTlv block = Some (Found (Some L) (Some 2)))
    by apply findNdefTlv_head.
  rewrite <- Hbody in Hscan.
  assert (Hblocks : Math_ceil_div (2 + byteZ L) 16 - 1 = Z.of_nat (S n')).
  { rewrite HL, additional_blocks_of_length. by rewrite <- Hn'. }
  destruct (readNdefData_additional_blocks c w _ _ DeviceToHost _ L 2 n'
              Hscript eq_refl Hscan Hblocks) as [Ho Hs].
  split.
  - rewrite Ho, Hbody. rewrite (gather_memory status trailer memory (S n') 1 more).
    pose proof (slice_to_end block 2) as Hslice. change (Z.of_nat 2) with 2 in Hslice.
    rewrite Hslice.
    rewrite slice_from_start by apply byteZ_nonneg. rewrite HL, Nat2Z.id.
    f_equal. f_equal.
    assert (Hjoin : drop 2 block ++ take (16 * S n') (drop (16 * 1) memory)
                    = drop 2 (take (16 * S (S n')) memory)).
    { unfold block.
      rewrite <- drop_app_le by (rewrite length_take; unfold memory; cbn [length]; lia).
      change (16 * 1)%nat with 16%nat. rewrite take_take_drop. f_equal. f_equal. lia. }
    rewrite Hjoin, take_drop_commute, take_take.
    replace (Nat.min (2 + length data) (16 * S (S n'))) with (2 + length data)%nat by lia.
    unfold memory. cbn [Nat.add take drop]. apply take_app_length.
  - rewrite Hs. rewrite take_ge; [reflexivity|].
    pose proof (resolvedPrefix_memory status trailer memory (S n') 1 more) as Hprefix.
    cbn [seq fmap list_fmap app] in Hprefix.
    unfold blockReads. rewrite length_fmap, length_seq. exact (le_S _ _ Hprefix).
Qed.

(** X16: what [writeNdefData] writes, [readNdefData] reads back.  For data
    of 15 to 255 bytes: when the tag memory from page 4 on holds the pages
    that [writeNdefData(data)] writes, whatever follows them, and every
    block read answers with its sixteen bytes of that memory,
    [readNdefData] resolves with exactly [data], after reading the blocks
    at the addresses 4, 8, ... that cover it. *)
Theorem readNdefData_reads_back_written_data
    (w : World) (data after memory : Buffer) (status trailer : byte)
    (more : list (list Event)) :
  (15 <= length data <= 255)%nat ->
  let bytes := [0x03; Z.of_nat (length data)] ++ (byteZ <$> data) ++ [0xFE] in
  byteZ <$> memory = concat (pageOf bytes <$> seq 0 (pageCount bytes)) ++ (byteZ <$> after) ->
  script w = (memoryReply status trailer memory <$> seq 0 (S ((length data + 1) / 16)))
               ++ more ->
  fst (readNdefData c w) = Resolved (Some data)
  /\ sent (snd (readNdefData c w)) = sent w ++ blockReads c (S ((length data + 1) / 16)) 0.
Proof.
  intros [Hlong Hshort] bytes Hmemory Hscript.
  destruct (Byte.of_N (N.of_nat (length data))) as [L|] eqn:HofN.
  2:{ apply Byte.of_N_None_iff in HofN. lia. }
  assert (HL : byteZ L = Z.of_nat (length data)).
  { unfold byteZ. apply Byte.to_of_N in HofN. rewrite HofN. lia. }
  assert (Hshape : memory = x03 :: L :: data
                              ++ xfe :: replicate (PAGE_SIZE * pageCount bytes - length bytes) x00
                              ++ after).
  { apply fmap_byteZ_inj. rewrite Hmemory, pages_concat.
    rewrite fmap_cons, fmap_cons, fmap_app, fmap_cons, fmap_app, fmap_replicate, HL.
    unfold bytes. rewrite <- !app_assoc. reflexivity. }
  rewrite Hshape in Hscript.
  exact (readNdefData_reads_memory w data _ L status trailer more HL Hlong Hscript).
Qed.

End RoundTrip.

Lemma readNdefData_reads_back_written_data_witness :
  let data := replicate 15 x41 in
  let memory := [x03; x0f] ++ data ++ [xfe; x00; x00] in
  fst (readNdefData c0
         {| script := (memoryReply x00 x90 memory <$> seq 0 2) ++ []; sent := []; log := [] |})
  = Resolved (Some data).
Proof.
  intros data memory.
  refine (proj1 (readNdefData_reads_back_written_data c0
                   {| script := (memoryReply x00 x90 memory <$> seq 0 2) ++ [];
                      sent := []; log := [] |}
                   data [] memory x00 x90 [] _ _ _)).
  - vm_compute. lia.
  - reflexivity.
  - reflexivity.
Defined.

(** ** A write that fails *)

Lemma chain_replies_then_error (bodies : list Buffer) (pre post : list Event) (e : Error)
    (more : list (list Event)) (n : nat) :
  Forall unsettling pre -> (length bodies < n)%nat ->
  chain n ((reply <$> bodies) ++ (pre ++ EvError e :: post) :: more) = Rejected e
  /\ resolvedPrefix ((reply <$> bodies) ++ (pre ++ EvError e :: post) :: more) = length bodies.
Proof.
  intros Hpre. revert n. induction bodies as [|body bodies IH]; intros n Hn.
  - destruct n as [|n]; [cbn in Hn; lia|].
    cbn [fmap list_fmap app chain resolvedPrefix length]. by rewrite await_error.
  - destruct n as [|n]; [cbn in Hn; lia|].
    cbn [fmap list_fmap app chain resolvedPrefix length reply await react onFrame fst].
    destruct (IH n) as [-> ->]; [cbn [length] in Hn; lia|done].
Qed.

Section WriteFailure.

Variable c : Constants.

(** X17: [writeNdefData] stops at the first write that fails.  When the
    first [k] page writes are answered and an error is emitted during the
    next one, the promise rejects with that error, the pages 0 to [k] have
    been sent and none after them: the tag is left with the start of the
    new message. *)
Theorem writeNdefData_stops_at_failed_write
    (data : list Z) (w : World) (answers : list Buffer) (pre post : list Event) (e : Error)
    (more : list (list Event)) :
  let bytes := [0x03; Z.of_nat (length data)] ++ data ++ [0xFE] in
  script w = (reply <$> answers) ++ (pre ++ EvError e :: post) :: more ->
  Forall unsettling pre ->
  (length answers < pageCount bytes)%nat ->
  fst (writeNdefData c data w) = Rejected e
  /\ framed <$> sent (snd (writeNdefData c data w))
     = (framed <$> sent w)
         ++ ((fun k => pageHeader c k ++ pageOf bytes k) <$> seq 0 (S (length answers))).
Proof.
  intros bytes Hscript Hpre Hfew.
  destruct (writeNdefData_pages_run c data w) as [Hs Ho]. fold bytes in Hs, Ho.
  destruct (chain_replies_then_error answers pre post e more (pageCount bytes) Hpre Hfew)
    as [Hchain Hprefix].
  rewrite Hs, Ho, Hscript, Hchain, Hprefix. split; [reflexivity|].
  rewrite fmap_app, fmap_take. f_equal.
  etransitivity;
    [apply (f_equal (take (S (length answers))));
     exact (pageWrites_framed c (pageCount bytes) 0 bytes)|].
  rewrite <- fmap_take. f_equal.
  replace (pageCount bytes) with (S (length answers) + (pageCount bytes - S (length answers)))%nat
    by lia.
  rewrite seq_app. by rewrite take_app_length' by (by rewrite length_seq).
Qed.

End WriteFailure.

Lemma writeNdefData_stops_at_failed_write_witness :
  fst (writeNdefData c0 [65; 66]
         {| script := [reply [x00; x90]; [EvFrame AckFrame; EvError (EmitterError 1)]];
            sent := []; log := [] |})
  = Rejected (EmitterError 1).
Proof.
  refine (proj1 (writeNdefData_stops_at_failed_write c0 [65; 66]
                   {| script := [reply [x00; x90]; [EvFrame AckFrame; EvError (EmitterError 1)]];
                      sent := []; log := [] |}
                   [[x00; x90]] [EvFrame AckFrame] [] (EmitterError 1) [] _ _ _)).
  - reflexivity.
  - apply Forall_cons_2; [left; reflexivity | apply Forall_nil_2].
  - vm_compute. lia.
Defined.

(** ** The answers of the simple queries *)

Section QueryFacts.

Variable m : MoreConstants.

(** X18: on a response, [configureSecureAccessModule] resolves with the
    frame itself, [getGeneralStatus] with the whole body, nothing stripped,
    and [getFirmwareVersion] with the first four bytes of a body of four
    bytes or more as IC, Ver, Rev and Support, ignoring the rest; each has
    sent its one command, of one opcode byte for the two queries. *)
Theorem queries_answer
    (w : World) (events : list Event) (more : list (list Event)) (d : Direction)
    (ic ver rev support : byte) (rest : Buffer) :
  script w = events :: more ->
  let body := ic :: ver :: rev :: support :: rest in
  fst (await events) = Resolved (DataFrame d body) ->
  fst (configureSecureAccessModule m w) = Resolved (DataFrame d body)
  /\ fst (getGeneralStatus m w) = Resolved body
  /\ fst (getFirmwareVersion m w)
     = Resolved {| IC := Some ic; Ver := Some ver; Rev := Some rev; Support := Some support |}
  /\ sent (snd (getGeneralStatus m w)) = sent w ++ [[Some (COMMAND_GET_GENERAL_STATUS m)]]
  /\ sent (snd (getFirmwareVersion m w)) = sent w ++ [[Some (COMMAND_GET_FIRMWARE_VERSION m)]]
  /\ sent (snd (configureSecureAccessModule m w))
     = sent w ++ [[Some (COMMAND_SAMCONFIGURATION m); Some (SAMCONFIGURATION_MODE_NORMAL m);
                   Some 0; Some (SAMCONFIGURATION_IRQ_ON m)]].
Proof.
  intros Hscript body Hawait.
  assert (Hnext : nextOutcome w = Resolved (DataFrame d body))
    by (unfold nextOutcome; by rewrite Hscript).
  unfold getGeneralStatus, getFirmwareVersion.
  rewrite !logged_request_outcome, Hnext, !logged_request_sent by reflexivity.
  unfold configureSecureAccessModule. rewrite then_eq. cbn [logger].
  rewrite sendCommand_outcome, sendCommand_sent. cbn [script sent]. rewrite Hscript.
  repeat split. exact Hawait.
Qed.

End QueryFacts.

Lemma queries_answer_witness :
  fst (getFirmwareVersion m0 {| script := [reply [x32; x01; x06; x07]]; sent := []; log := [] |})
  = Resolved {| IC := Some x32; Ver := Some x01; Rev := Some x06; Support := Some x07 |}.
Proof.
  destruct (queries_answer m0 {| script := [reply [x32; x01; x06; x07]]; sent := []; log := [] |}
              (reply [x32; x01; x06; x07]) [] DeviceToHost x32 x01 x06 x07 [] eq_refl eq_refl)
    as (_ & _ & Hfirmware & _).
  exact Hfirmware.
Defined.
